(** * The DDPG agent of tf_agents/agents/ddpg/ddpg_agent.py

    A shallow embedding of [DdpgAgent]: the soft update of the target
    networks, the extraction of transitions from a batch of experience, the
    critic and the actor loss, and one training step.

    Numbers are exact rationals ([Qc]): rounding, infinities and NaN of the
    float tensors are outside the model.  A tensor carries its shape and its
    entries in row-major order; a nest of tensors is the list of its tensors
    in flattening order. *)

From Stdlib Require Import String List Bool Arith ZArith QArith Qcanon Qcabs Lia.
Import ListNotations.

Open Scope Qc_scope.

(** ** Numbers *)

Abbreviation Num := Qc.

Definition num (n : Z) (d : positive) : Num := Q2Qc (n # d).

Definition Qcleb (x y : Num) : bool := Qle_bool x y.

Definition Qcmin (x y : Num) : Num := if Qcleb x y then x else y.

Definition Qcmax (x y : Num) : Num := if Qcleb x y then y else x.

Definition of_nat (n : nat) : Num := Q2Qc (inject_Z (Z.of_nat n)).

(** ** Exceptions *)

(** [InvalidInputError] is the shape error of TensorFlow, [AttributeError]
    and [ValueError] are Python's. *)
Inductive Error := InvalidInputError | AttributeError | ValueError.

Inductive Result (A : Type) : Type :=
| OK (a : A)
| Raise (e : Error).

Arguments OK {A} a.
Arguments Raise {A} e.

Definition rbind {A B} (r : Result A) (f : A -> Result B) : Result B :=
  match r with
  | OK a => f a
  | Raise e => Raise e
  end.

Fixpoint map_result {A B} (f : A -> Result B) (l : list A) : Result (list B) :=
  match l with
  | [] => OK []
  | x :: l' =>
      rbind (f x) (fun y => rbind (map_result f l') (fun ys => OK (y :: ys)))
  end.

(** ** Tensors *)

Record Tensor := mkTensor { shape : list nat; data : list Num }.

(** [map2] pairs the entries in order, as [zip] does. *)
Fixpoint map2 {A B C} (f : A -> B -> C) (xs : list A) (ys : list B) : list C :=
  match xs, ys with
  | x :: xs', y :: ys' => f x y :: map2 f xs' ys'
  | _, _ => []
  end.

(** The operations of TensorFlow the agent calls, on tensors whose shapes
    agree (broadcasting is not modelled: a binary operation keeps the shape
    of its left operand). *)
Module tf.

Definition map (f : Num -> Num) (x : Tensor) : Tensor :=
  mkTensor (shape x) (List.map f (data x)).

Definition zip_with (f : Num -> Num -> Num) (x y : Tensor) : Tensor :=
  mkTensor (shape x) (map2 f (data x) (data y)).

(** [c * x] for a Python number [c]. *)
Definition scale (c : Num) (x : Tensor) : Tensor := map (Qcmult c) x.

Definition add : Tensor -> Tensor -> Tensor := zip_with Qcplus.

Definition subtract : Tensor -> Tensor -> Tensor := zip_with Qcminus.

Definition multiply : Tensor -> Tensor -> Tensor := zip_with Qcmult.

(** [tf.clip_by_value(t, lo, hi)] is [maximum(minimum(t, hi), lo)]. *)
Definition clip_by_value (t : Tensor) (lo hi : Num) : Tensor :=
  map (fun x => Qcmax (Qcmin x hi) lo) t.

Definition reduce_sum (xs : list Num) : Num := fold_right Qcplus 0 xs.

(** The reduction of [tf.losses]: the sum of the entries over their number,
    and 0 when there is none ([x / 0] is [0] in [Qc]). *)
Definition reduce_mean (xs : list Num) : Num :=
  reduce_sum xs / of_nat (List.length xs).

(** [tf.add_n(inputs)] adds the tensors of a list and refuses an empty
    one. *)
Definition add_n {A} (plus : A -> A -> A) (inputs : list A) : Result A :=
  match inputs with
  | [] => Raise ValueError
  | x :: inputs' => OK (fold_left plus inputs' x)
  end.

(** [tf.squeeze(x, [1])]: removes axis 1, which has to be of size 1. *)
Definition squeeze (x : Tensor) : Result Tensor :=
  match shape x with
  | b :: 1%nat :: rest => OK (mkTensor (b :: rest) (data x))
  | _ => Raise InvalidInputError
  end.

(** [tf.losses.huber_loss(labels, predictions)] with its defaults
    [weights=1.0] and [delta=1.0]; [huber] is the loss of one entry. *)
Definition huber (delta : Num) (label prediction : Num) : Num :=
  let error := prediction - label in
  let abs_error := Qcabs error in
  let quadratic := Qcmin abs_error delta in
  let linear := abs_error - quadratic in
  num 1 2 * (quadratic * quadratic) + delta * linear.

Definition huber_loss (labels predictions : Tensor) : Num :=
  reduce_mean (map2 (huber 1) (data labels) (data predictions)).

(** [tf.losses.mean_squared_error(labels, predictions)]. *)
Definition squared_difference (label prediction : Num) : Num :=
  (prediction - label) * (prediction - label).

Definition mean_squared_error (labels predictions : Tensor) : Num :=
  reduce_mean (map2 squared_difference (data labels) (data predictions)).

End tf.

(** ** Time steps, policy steps and trajectories *)

Module time_step.

Record TimeStep := mkTimeStep {
  step_type : Tensor;
  reward : Tensor;
  discount : Tensor;
  observation : list Tensor
}.

End time_step.

Module policy_step.

(** The [state] and [info] of a policy step hold no tensor here. *)
Record PolicyStep := mkPolicyStep { action : list Tensor }.

End policy_step.

Module trajectory.

(** Modelled from the spec: the module [tf_agents.environments.trajectory]
    is not among the sources.  A batch of experience records, for every
    sample and every step of its time window, what a time step holds and the
    action the policy took there; every tensor has the shape [[B, T, ...]]. *)
Record Trajectory := mkTrajectory {
  step_type : Tensor;
  observation : list Tensor;
  action : list Tensor;
  reward : Tensor;
  discount : Tensor
}.

Definition prod (l : list nat) : nat := fold_right Nat.mul 1%nat l.

(** The [b] consecutive blocks of [n] entries of [l]. *)
Fixpoint rows {A} (b n : nat) (l : list A) : list (list A) :=
  match b with
  | O => []
  | S b' => firstn n l :: rows b' n (skipn n l)
  end.

(** [x[:, :-1]]: every step of the window but the last one. *)
Definition current_steps (x : Tensor) : Result Tensor :=
  match shape x with
  | b :: t :: rest =>
      let r := prod rest in
      OK (mkTensor (b :: (t - 1)%nat :: rest)
            (concat (List.map (firstn ((t - 1) * r)) (rows b (t * r) (data x)))))
  | _ => Raise InvalidInputError
  end.

(** [x[:, 1:]]: every step of the window but the first one. *)
Definition next_steps (x : Tensor) : Result Tensor :=
  match shape x with
  | b :: t :: rest =>
      let r := prod rest in
      OK (mkTensor (b :: (t - 1)%nat :: rest)
            (concat (List.map (skipn r) (rows b (t * r) (data x)))))
  | _ => Raise InvalidInputError
  end.

Definition map_time_step (f : Tensor -> Result Tensor) (experience : Trajectory)
  : Result time_step.TimeStep :=
  rbind (f (step_type experience)) (fun st =>
  rbind (f (reward experience)) (fun r =>
  rbind (f (discount experience)) (fun d =>
  rbind (map_result f (observation experience)) (fun o =>
  OK (time_step.mkTimeStep st r d o))))).

(** Modelled from the spec: [to_transition] splits the window into the
    current steps and the next steps; the actions are the ones recorded at
    the current steps. *)
Definition to_transition (experience : Trajectory)
  : Result (time_step.TimeStep * policy_step.PolicyStep * time_step.TimeStep) :=
  rbind (map_time_step current_steps experience) (fun time_steps =>
  rbind (map_result current_steps (action experience)) (fun actions =>
  rbind (map_time_step next_steps experience) (fun next_time_steps =>
  OK (time_steps, policy_step.mkPolicyStep actions, next_time_steps)))).

End trajectory.

Import time_step policy_step.

(** ** Variables and graph tensors *)

Record TFVariable := mkVariable { trainable : bool; value : Tensor }.

Definition assign (v : TFVariable) (t : Tensor) : TFVariable :=
  mkVariable (trainable v) t.

Definition values (vs : list TFVariable) : list Tensor := List.map value vs.

(** The four variable scopes of the agent, one per network template. *)
Inductive Scope :=
| ACTOR_NET_SCOPE
| TARGET_ACTOR_NET_SCOPE
| CRITIC_NET_SCOPE
| TARGET_CRITIC_NET_SCOPE.

Record Variables := mkVariables {
  actor_net_variables : list TFVariable;
  target_actor_net_variables : list TFVariable;
  critic_net_variables : list TFVariable;
  target_critic_net_variables : list TFVariable
}.

Definition global_variables (scope : Scope) (vars : Variables) : list TFVariable :=
  match scope with
  | ACTOR_NET_SCOPE => actor_net_variables vars
  | TARGET_ACTOR_NET_SCOPE => target_actor_net_variables vars
  | CRITIC_NET_SCOPE => critic_net_variables vars
  | TARGET_CRITIC_NET_SCOPE => target_critic_net_variables vars
  end.

Definition trainable_variables (scope : Scope) (vars : Variables) : list TFVariable :=
  filter trainable (global_variables scope vars).

Definition set_variables (scope : Scope) (new : list TFVariable) (vars : Variables)
  : Variables :=
  match scope with
  | ACTOR_NET_SCOPE =>
      mkVariables new (target_actor_net_variables vars)
        (critic_net_variables vars) (target_critic_net_variables vars)
  | TARGET_ACTOR_NET_SCOPE =>
      mkVariables (actor_net_variables vars) new
        (critic_net_variables vars) (target_critic_net_variables vars)
  | CRITIC_NET_SCOPE =>
      mkVariables (actor_net_variables vars) (target_actor_net_variables vars)
        new (target_critic_net_variables vars)
  | TARGET_CRITIC_NET_SCOPE =>
      mkVariables (actor_net_variables vars) (target_actor_net_variables vars)
        (critic_net_variables vars) new
  end.

(** Gives the trainable variables of [vs], in their order, the values [new];
    a variable left without a new value keeps its own. *)
Fixpoint assign_trainable (new : list Tensor) (vs : list TFVariable) : list TFVariable :=
  match vs with
  | [] => []
  | v :: vs' =>
      if trainable v then
        match new with
        | t :: new' => assign v t :: assign_trainable new' vs'
        | [] => v :: assign_trainable [] vs'
        end
      else v :: assign_trainable new vs'
  end.

(** A tensor of the graph.  Its value is a function of the variables; the
    first argument is what the variables hold in the run that evaluates the
    tensor, the second is the point at which the tensor is differentiated.
    The run itself reads the tensor at [s s]. *)
Definition Graph (A : Type) : Type := Variables -> Variables -> A.

Definition eval {A} (t : Graph A) (s : Variables) : A := t s s.

Definition constant {A} (a : A) : Graph A := fun _ _ => a.

Definition lift {A B} (f : A -> B) (x : Graph A) : Graph B :=
  fun s0 v => f (x s0 v).

Definition lift2 {A B C} (f : A -> B -> C) (x : Graph A) (y : Graph B) : Graph C :=
  fun s0 v => f (x s0 v) (y s0 v).

(** A nest of graph tensors. *)
Definition nest (xs : list (Graph Tensor)) : Graph (list Tensor) :=
  fun s0 v => List.map (fun x => x s0 v) xs.

(** [tf.stop_gradient]: the value of the run, whatever the point of
    differentiation. *)
Definition stop_gradient {A} (t : Graph A) : Graph A := fun s0 _ => t s0 s0.

(** ** The agent *)

Record BoundedTensorSpec := mkBoundedTensorSpec {
  spec_shape : list nat;
  minimum : Num;
  maximum : Num
}.

(** [actor_net(time_steps, action_spec)] returns the nest of the actions and
    [critic_net(time_steps, actions)] the Q-values, each tensor as a function
    of the values of the variables of the template that is called. *)
Definition ActorNetwork : Type :=
  TimeStep -> list BoundedTensorSpec -> list (list Tensor -> Tensor).

Definition CriticNetwork : Type :=
  TimeStep -> list Tensor -> list Tensor -> Tensor.

(** An optimizer turns the gradients and the values of the variables into
    the new values. *)
Definition Optimizer : Type := list Tensor -> list Tensor -> list Tensor.

(** The attributes [__init__] sets; [_actor_net] and [_critic_net] are the
    functions the four templates are made from.  The two policies are not
    modelled. *)
Record DdpgAgent := mkDdpgAgent {
  _action_spec : list BoundedTensorSpec;
  _actor_net : ActorNetwork;
  _critic_net : CriticNetwork;
  _actor_optimizer : option Optimizer;
  _critic_optimizer : option Optimizer;
  _ou_stddev : Num;
  _ou_damping : Num;
  _target_update_tau : Num;
  _target_update_period : nat;
  _dqda_clipping : option Num;
  _td_errors_loss_fn : Tensor -> Tensor -> Num;
  _gamma : Num;
  _reward_scale_factor : Num;
  _gradient_clipping : option Num;
  _debug_summaries : bool;
  _summarize_grads_and_vars : bool
}.

Definition __init__
    (action_spec : list BoundedTensorSpec)
    (actor_net : ActorNetwork)
    (critic_net : CriticNetwork)
    (actor_optimizer critic_optimizer : option Optimizer)
    (ou_stddev ou_damping : Num)
    (target_update_tau : Num)
    (target_update_period : nat)
    (dqda_clipping : option Num)
    (td_errors_loss_fn : option (Tensor -> Tensor -> Num))
    (gamma reward_scale_factor : Num)
    (gradient_clipping : option Num)
    (debug_summaries summarize_grads_and_vars : bool) : DdpgAgent :=
  mkDdpgAgent action_spec actor_net critic_net actor_optimizer critic_optimizer
    ou_stddev ou_damping target_update_tau target_update_period dqda_clipping
    (match td_errors_loss_fn with Some f => f | None => tf.huber_loss end)
    gamma reward_scale_factor gradient_clipping
    debug_summaries summarize_grads_and_vars.

(** What a call can change: the agent itself, the variables of the four
    networks, the counter of the periodic update, the step counter of the
    caller and the summaries written so far. *)
Record World := mkWorld {
  self : DdpgAgent;
  variables : Variables;
  counter : nat;
  train_steps : nat;
  summaries : list (string * list Num)
}.

Definition M (A : Type) : Type := World -> Result (A * World).

Definition ret {A} (a : A) : M A := fun w => OK (a, w).

Definition bind {A B} (m : M A) (f : A -> M B) : M B :=
  fun w => match m w with
           | OK (a, w') => f a w'
           | Raise e => Raise e
           end.

Notation "x <- m ;; k" := (bind m (fun x => k))
  (at level 61, m at next level, right associativity).
Notation "m ;; k" := (bind m (fun _ => k))
  (at level 61, right associativity).

Definition raise {A} (e : Error) : M A := fun _ => Raise e.

Definition lift_result {A} (r : Result A) : M A :=
  fun w => match r with OK a => OK (a, w) | Raise e => Raise e end.

Definition get_self : M DdpgAgent := fun w => OK (self w, w).

Definition get_variables : M Variables := fun w => OK (variables w, w).

Definition put_variables (vars : Variables) : M unit :=
  fun w => OK (tt, mkWorld (self w) vars (counter w) (train_steps w) (summaries w)).

Definition get_counter : M nat := fun w => OK (counter w, w).

Definition put_counter (n : nat) : M unit :=
  fun w => OK (tt, mkWorld (self w) (variables w) n (train_steps w) (summaries w)).

Definition increment_train_steps : M unit :=
  fun w => OK (tt, mkWorld (self w) (variables w) (counter w) (S (train_steps w))
                     (summaries w)).

(** A summary records, under its tag, the entries the tensor has in the
    current run. *)
Definition summary (tag : string) (t : Graph Tensor) : M unit :=
  fun w => OK (tt, mkWorld (self w) (variables w) (counter w) (train_steps w)
                     (summaries w ++ [(tag, data (eval t (variables w)))])).

Definition summary_scalar (tag : string) (t : Graph Num) : M unit :=
  summary tag (lift (fun x => mkTensor [] [x]) t).

Fixpoint for_each {A} (f : A -> M unit) (l : list A) : M unit :=
  match l with
  | [] => ret tt
  | x :: l' => f x ;; for_each f l'
  end.

Module common_utils.

(** Modelled from the spec: [tf_agents.utils.common] is not among the
    sources.  Every target variable that has an online counterpart becomes
    [(1 - tau) * w_t + tau * w_s]. *)
Fixpoint soft_variables_update (source_variables target_variables : list TFVariable)
    (tau : Num) : list TFVariable :=
  match source_variables, target_variables with
  | v_s :: source', v_t :: target' =>
      assign v_t (tf.add (tf.scale (1 - tau) (value v_t)) (tf.scale tau (value v_s)))
      :: soft_variables_update source' target' tau
  | _, _ => target_variables
  end.

(** Modelled from the spec: a counter of the calls gates [body].  The count
    of a call is the number of the calls before it; [body] runs on the calls
    whose count is a multiple of [period], and every call counts. *)
Definition periodically (body : M unit) (period : nat) : M unit :=
  count <- get_counter ;;
  put_counter (S count) ;;
  if (count mod period =? 0)%nat then body else ret tt.

(** Modelled from the spec: the diagnostics record the tensor under its
    tag. *)
Definition generate_tensor_summaries (tag : string) (t : Graph Tensor) : M unit :=
  summary tag t.

End common_utils.

(** One update of the variables in a run: it is given what the variables
    held when the run started, where the tensors of the run are read. *)
Definition Op : Type := Variables -> M unit.

Section Agent.

(** The automatic differentiation of TensorFlow: [tf_gradients f xs] is the
    list of the gradients of [f] with respect to each tensor of [xs], at
    [xs]; and the clipping of gradients by their norm. *)
Variable tf_gradients : (list Tensor -> Num) -> list Tensor -> list Tensor.
Variable clip_gradient_norms : Num -> list Tensor -> list Tensor.

(** [tf.gradients([ys], xs)] where [ys] is given as a function of [xs]: one
    tensor per tensor of [xs], the gradient of the sum of the entries of
    [ys]. *)
Definition gradients (ys : Graph (list Tensor) -> Graph Tensor)
    (xs : list (Graph Tensor)) : list (Graph Tensor) :=
  List.map
    (fun i => fun s0 v =>
       nth i
         (tf_gradients
            (fun x => tf.reduce_sum (data (ys (constant x) s0 v)))
            (nest xs s0 v))
         (mkTensor [] []))
    (seq 0 (List.length xs)).

(** Calling the template of a scope on its inputs. *)
Definition call_actor_net (agent : DdpgAgent) (scope : Scope) (time_steps : TimeStep)
  : list (Graph Tensor) :=
  List.map (fun out => fun _ v => out (values (global_variables scope v)))
    (_actor_net agent time_steps (_action_spec agent)).

Definition call_critic_net (agent : DdpgAgent) (scope : Scope) (time_steps : TimeStep)
    (actions : Graph (list Tensor)) : Graph Tensor :=
  fun s0 v =>
    _critic_net agent time_steps (actions s0 v) (values (global_variables scope v)).

Definition _update_targets (tau : Num) (period : nat) : M unit :=
  let update : M unit :=
    vars <- get_variables ;;
    let critic_update :=
      common_utils.soft_variables_update
        (global_variables CRITIC_NET_SCOPE vars)
        (global_variables TARGET_CRITIC_NET_SCOPE vars) tau in
    let actor_update :=
      common_utils.soft_variables_update
        (global_variables ACTOR_NET_SCOPE vars)
        (global_variables TARGET_ACTOR_NET_SCOPE vars) tau in
    put_variables
      (set_variables TARGET_ACTOR_NET_SCOPE actor_update
         (set_variables TARGET_CRITIC_NET_SCOPE critic_update vars)) in
  common_utils.periodically update period.

Definition _initialize : M unit := _update_targets 1 1.

Definition squeeze_time_step (x : TimeStep) : Result TimeStep :=
  rbind (tf.squeeze (step_type x)) (fun st =>
  rbind (tf.squeeze (reward x)) (fun r =>
  rbind (tf.squeeze (discount x)) (fun d =>
  rbind (map_result tf.squeeze (observation x)) (fun o =>
  OK (mkTimeStep st r d o))))).

Definition _experience_to_transitions (experience : trajectory.Trajectory)
  : Result (TimeStep * list Tensor * TimeStep) :=
  rbind (trajectory.to_transition experience) (fun transitions =>
  let '(time_steps, policy_steps, next_time_steps) := transitions in
  (* Remove time dim since we are not using a recurrent network. *)
  rbind (squeeze_time_step time_steps) (fun time_steps =>
  rbind (map_result tf.squeeze (action policy_steps)) (fun actions =>
  rbind (squeeze_time_step next_time_steps) (fun next_time_steps =>
  OK (time_steps, actions, next_time_steps))))).

Definition critic_loss (time_steps : TimeStep) (actions : list Tensor)
    (next_time_steps : TimeStep) : M (Graph Num) :=
  agent <- get_self ;;
  let target_actions := call_actor_net agent TARGET_ACTOR_NET_SCOPE next_time_steps in
  let target_q_values :=
    call_critic_net agent TARGET_CRITIC_NET_SCOPE next_time_steps
      (nest target_actions) in
  let td_targets :=
    stop_gradient
      (lift2 tf.add
         (constant (tf.scale (_reward_scale_factor agent) (reward next_time_steps)))
         (lift2 tf.multiply
            (constant (tf.scale (_gamma agent) (discount next_time_steps)))
            target_q_values)) in
  let q_values :=
    call_critic_net agent CRITIC_NET_SCOPE time_steps (constant actions) in
  let critic_loss := lift2 (_td_errors_loss_fn agent) td_targets q_values in
  summary_scalar "critic_loss" critic_loss ;;
  (if _debug_summaries agent then
     let td_errors := lift2 tf.subtract td_targets q_values in
     common_utils.generate_tensor_summaries "td_errors" td_errors ;;
     common_utils.generate_tensor_summaries "td_targets" td_targets ;;
     common_utils.generate_tensor_summaries "q_values" q_values
   else ret tt) ;;
  ret critic_loss.

(** The body of the loop of [actor_loss]: the loss of one component of the
    action, appended to the losses collected so far. *)
Definition actor_loss_step (agent : DdpgAgent) (actor_losses : list (Graph Num))
    (pair : Graph Tensor * Graph Tensor) : list (Graph Num) :=
  let '(dqda, action) := pair in
  let dqda :=
    match _dqda_clipping agent with
    | Some dqda_clipping =>
        lift (fun t => tf.clip_by_value t (num (-1) 1 * dqda_clipping) dqda_clipping)
          dqda
    | None => dqda
    end in
  actor_losses
    ++ [lift2 tf.mean_squared_error (stop_gradient (lift2 tf.add dqda action)) action].

Definition actor_loss (time_steps : TimeStep) : M (Graph Num) :=
  agent <- get_self ;;
  let actions := call_actor_net agent ACTOR_NET_SCOPE time_steps in
  let q_values := call_critic_net agent CRITIC_NET_SCOPE time_steps in
  let dqda := gradients q_values actions in
  let actor_losses := fold_left (actor_loss_step agent) (combine dqda actions) [] in
  actor_loss <- lift_result (tf.add_n (lift2 Qcplus) actor_losses) ;;
  summary_scalar "actor_loss" actor_loss ;;
  ret actor_loss.

(** [clip_and_summarize_gradients] of [_train]. *)
Definition clip_and_summarize_gradients (grads : list Tensor) (vars : list Tensor)
  : M (list Tensor) :=
  agent <- get_self ;;
  let grads :=
    match _gradient_clipping agent with
    | Some c => clip_gradient_norms c grads
    | None => grads
    end in
  (if _summarize_grads_and_vars agent then
     for_each
       (fun gv => summary "Gradients/" (constant (fst gv)) ;;
                  summary "Variables/" (constant (snd gv)))
       (combine grads vars)
   else ret tt) ;;
  ret grads.

(** [tf.contrib.training.create_train_op]: the gradients of the loss with
    respect to the variables to train, transformed, are handed to the
    optimizer, and the step counter, when there is one, is incremented. *)
Definition create_train_op (total_loss : Graph Num) (optimizer : option Optimizer)
    (global_step : bool)
    (transform_grads_fn : list Tensor -> list Tensor -> M (list Tensor))
    (variables_to_train : Scope) : M Op :=
  match optimizer with
  | None => raise AttributeError
  | Some optimizer =>
      ret (fun s0 =>
        let xs := values (trainable_variables variables_to_train s0) in
        let loss_of x :=
          total_loss s0
            (set_variables variables_to_train
               (assign_trainable x (global_variables variables_to_train s0)) s0) in
        grads <- transform_grads_fn (tf_gradients loss_of xs) xs ;;
        vars <- get_variables ;;
        let current := global_variables variables_to_train vars in
        put_variables
          (set_variables variables_to_train
             (assign_trainable (optimizer grads (values (filter trainable current)))
                current) vars) ;;
        if global_step then increment_train_steps else ret tt)
  end.

Record LossInfo := mkLossInfo { loss : Num; extra : unit }.

Definition _train (experience : trajectory.Trajectory) (train_step_counter : bool)
  : M LossInfo :=
  transitions <- lift_result (_experience_to_transitions experience) ;;
  let '(time_steps, actions, next_time_steps) := transitions in
  critic_loss <- critic_loss time_steps actions next_time_steps ;;
  actor_loss <- actor_loss time_steps ;;
  agent <- get_self ;;
  critic_train_op <-
    create_train_op critic_loss (_critic_optimizer agent) train_step_counter
      clip_and_summarize_gradients CRITIC_NET_SCOPE ;;
  actor_train_op <-
    create_train_op actor_loss (_actor_optimizer agent) false
      clip_and_summarize_gradients ACTOR_NET_SCOPE ;;
  (* The run: the tensors are read at the variables it starts from. *)
  s0 <- get_variables ;;
  critic_train_op s0 ;;
  actor_train_op s0 ;;
  _update_targets (_target_update_tau agent) (_target_update_period agent) ;;
  let total_loss := lift2 Qcplus actor_loss critic_loss in
  ret (mkLossInfo (eval total_loss s0) tt).

End Agent.

(** ** What the losses and the training step are to compute *)

(** The TD target, entry by entry. *)
Fixpoint td_target_spec (reward_scale_factor gamma : Num)
    (next_reward next_discount target_q : list Num) : list Num :=
  match next_reward, next_discount, target_q with
  | r :: next_reward', d :: next_discount', q :: target_q' =>
      reward_scale_factor * r + gamma * d * q
      :: td_target_spec reward_scale_factor gamma next_reward' next_discount' target_q'
  | _, _, _ => []
  end.

(** The actions of the actor template of a scope, and the Q-values of the
    critic template of a scope, when the variables are [vars]. *)
Definition actions_at (agent : DdpgAgent) (scope : Scope) (time_steps : TimeStep)
    (vars : Variables) : list Tensor :=
  List.map (fun out => out (values (global_variables scope vars)))
    (_actor_net agent time_steps (_action_spec agent)).

Definition q_values_at (agent : DdpgAgent) (scope : Scope) (time_steps : TimeStep)
    (actions : list Tensor) (vars : Variables) : Tensor :=
  _critic_net agent time_steps actions (values (global_variables scope vars)).

(** The critic loss: the loss function of the agent between the TD target,
    made from the target networks as the run finds them, and the Q-values of
    the online critic at the recorded actions. *)
Definition critic_loss_spec (agent : DdpgAgent) (time_steps : TimeStep)
    (actions : list Tensor) (next_time_steps : TimeStep) : Graph Num :=
  fun s0 v =>
    let target_action := actions_at agent TARGET_ACTOR_NET_SCOPE next_time_steps s0 in
    let target_q :=
      q_values_at agent TARGET_CRITIC_NET_SCOPE next_time_steps target_action s0 in
    let td_target :=
      mkTensor (shape (reward next_time_steps))
        (td_target_spec (_reward_scale_factor agent) (_gamma agent)
           (data (reward next_time_steps)) (data (discount next_time_steps))
           (data target_q)) in
    let q := q_values_at agent CRITIC_NET_SCOPE time_steps actions v in
    _td_errors_loss_fn agent td_target q.

(** The clipping of the action gradient, when a bound is configured. *)
Definition clip_dqda (agent : DdpgAgent) (dqda : Tensor) : Tensor :=
  match _dqda_clipping agent with
  | Some c => tf.clip_by_value dqda (num (-1) 1 * c) c
  | None => dqda
  end.

(** The actor loss: the sum, over the components of the action, of the mean
    squared error between [dqda + action], frozen at the run, and the
    action. *)
Definition actor_loss_spec
    (tf_gradients : (list Tensor -> Num) -> list Tensor -> list Tensor)
    (agent : DdpgAgent) (time_steps : TimeStep) : Graph Num :=
  fun s0 v =>
    let action := actions_at agent ACTOR_NET_SCOPE time_steps in
    let q a := q_values_at agent CRITIC_NET_SCOPE time_steps a s0 in
    let dqda := tf_gradients (fun a => tf.reduce_sum (data (q a))) (action s0) in
    tf.reduce_sum
      (List.map
         (fun i =>
            tf.mean_squared_error
              (tf.add (clip_dqda agent (nth i dqda (mkTensor [] [])))
                 (nth i (action s0) (mkTensor [] [])))
              (nth i (action v) (mkTensor [] [])))
         (seq 0 (List.length (action s0)))).

(** The gradients a train op hands to its optimizer. *)
Definition transformed_gradients (clip_gradient_norms : Num -> list Tensor -> list Tensor)
    (agent : DdpgAgent) (grads : list Tensor) : list Tensor :=
  match _gradient_clipping agent with
  | Some c => clip_gradient_norms c grads
  | None => grads
  end.

(** One optimizer step on the variables of [scope], for the loss read and
    differentiated at [s0]. *)
Definition optimizer_step
    (tf_gradients : (list Tensor -> Num) -> list Tensor -> list Tensor)
    (clip_gradient_norms : Num -> list Tensor -> list Tensor)
    (agent : DdpgAgent) (total_loss : Graph Num) (optimizer : Optimizer)
    (scope : Scope) (s0 : Variables) : list TFVariable :=
  let xs := values (trainable_variables scope s0) in
  let loss_of x :=
    total_loss s0
      (set_variables scope (assign_trainable x (global_variables scope s0)) s0) in
  let grads := transformed_gradients clip_gradient_norms agent (tf_gradients loss_of xs) in
  assign_trainable (optimizer grads xs) (global_variables scope s0).

(** What a call leaves as it was when it only writes summaries. *)
Definition only_summaries (w w' : World) : Prop :=
  self w' = self w /\ variables w' = variables w
  /\ counter w' = counter w /\ train_steps w' = train_steps w.

(** Corresponding variables of two networks have the same shape and as many
    entries. *)
Definition same_shape (v_s v_t : TFVariable) : Prop :=
  shape (value v_s) = shape (value v_t)
  /\ List.length (data (value v_s)) = List.length (data (value v_t)).

Definition compatible (vars : Variables) : Prop :=
  Forall2 same_shape (critic_net_variables vars) (target_critic_net_variables vars)
  /\ Forall2 same_shape (actor_net_variables vars) (target_actor_net_variables vars).

(** The tensors of a batch of experience whose time window has [t] steps. *)
Definition window (t : nat) (x : Tensor) : Prop :=
  exists b rest, shape x = b :: t :: rest.

Definition experience_window (t : nat) (experience : trajectory.Trajectory) : Prop :=
  window t (trajectory.step_type experience)
  /\ window t (trajectory.reward experience)
  /\ window t (trajectory.discount experience)
  /\ Forall (window t) (trajectory.observation experience)
  /\ Forall (window t) (trajectory.action experience).

(** The shape [[B, ...]] of a tensor of shape [[B, T, ...]]. *)
Definition without_time (s : list nat) : list nat :=
  match s with
  | b :: _ :: rest => b :: rest
  | _ => s
  end.

(** [y] has the shape of [x] without its time axis. *)
Definition squeezed (x y : Tensor) : Prop := shape y = without_time (shape x).

Definition squeezed_time_step (experience : trajectory.Trajectory) (x : TimeStep)
  : Prop :=
  squeezed (trajectory.step_type experience) (step_type x)
  /\ squeezed (trajectory.reward experience) (reward x)
  /\ squeezed (trajectory.discount experience) (discount x)
  /\ Forall2 squeezed (trajectory.observation experience) (observation x).

(** [a] holds, for every sample [i], the entries [k] that the recorded
    tensor [x] of shape [[B, 2, ...]] has at the first step of the window. *)
Definition recorded_action (x a : Tensor) : Prop :=
  squeezed x a
  /\ forall b rest i k,
       shape x = b :: 2%nat :: rest ->
       List.length (data x) = (b * (2 * trajectory.prod rest))%nat ->
       (i < b)%nat -> (k < trajectory.prod rest)%nat ->
       nth (i * trajectory.prod rest + k) (data a) 0
       = nth (i * (2 * trajectory.prod rest) + k) (data x) 0.

(** The mean of the squares of the entries of a tensor. *)
Definition mean_square (t : Tensor) : Num :=
  tf.reduce_mean (List.map (fun x => x * x) (data t)).

(** The gradients [dqda] of [actor_loss] in the run [s0]: the gradient of
    the Q-values of the online critic with respect to each component of the
    action of the online actor. *)
Definition action_gradient
    (tf_gradients : (list Tensor -> Num) -> list Tensor -> list Tensor)
    (agent : DdpgAgent) (time_steps : TimeStep) (s0 : Variables) : list Tensor :=
  tf_gradients
    (fun a => tf.reduce_sum (data (q_values_at agent CRITIC_NET_SCOPE time_steps a s0)))
    (actions_at agent ACTOR_NET_SCOPE time_steps s0).

(** The differentiation gives equal gradients to functions that are equal
    at every point. *)
Definition extensional
    (tf_gradients : (list Tensor -> Num) -> list Tensor -> list Tensor) : Prop :=
  forall f g xs, (forall x, f x = g x) -> tf_gradients f xs = tf_gradients g xs.

(** The agent constructed with other values of [debug_summaries] and
    [summarize_grads_and_vars], and the world around it. *)
Definition with_summaries (agent : DdpgAgent)
    (debug_summaries summarize_grads_and_vars : bool) : DdpgAgent :=
  mkDdpgAgent (_action_spec agent) (_actor_net agent) (_critic_net agent)
    (_actor_optimizer agent) (_critic_optimizer agent)
    (_ou_stddev agent) (_ou_damping agent)
    (_target_update_tau agent) (_target_update_period agent)
    (_dqda_clipping agent) (_td_errors_loss_fn agent)
    (_gamma agent) (_reward_scale_factor agent) (_gradient_clipping agent)
    debug_summaries summarize_grads_and_vars.

Definition with_agent (agent : DdpgAgent) (w : World) : World :=
  mkWorld agent (variables w) (counter w) (train_steps w) (summaries w).


(** [x] lies between [a] and [b]. *)
Definition between (x a b : Num) : Prop := Qcmin a b <= x /\ x <= Qcmax a b.

(** Every entry of every variable of [after] lies between the entry the
    target variable had in [target] and the entry of its online counterpart
    in [source]. *)
Definition blended (source target after : list TFVariable) : Prop :=
  forall i v_s v_t j,
    nth_error source i = Some v_s ->
    nth_error target i = Some v_t ->
    (j < List.length (data (value v_s)))%nat ->
    (j < List.length (data (value v_t)))%nat ->
    exists v_t',
      nth_error after i = Some v_t'
      /\ between (nth j (data (value v_t')) 0)
           (nth j (data (value v_t)) 0) (nth j (data (value v_s)) 0).

(** ** A toy agent: one observation, one action, a linear critic *)

Module toy.

Fixpoint update_nth {A} (n : nat) (f : A -> A) (l : list A) : list A :=
  match l, n with
  | [], _ => []
  | x :: l', O => f x :: l'
  | x :: l', S n' => x :: update_nth n' f l'
  end.

Definition perturb (i j : nat) (h : Num) (xs : list Tensor) : list Tensor :=
  update_nth i (fun t => mkTensor (shape t) (update_nth j (Qcplus h) (data t))) xs.

(** Central differences, which are the gradient of a function that is at
    most quadratic. *)
Definition central_differences (f : list Tensor -> Num) (xs : list Tensor)
  : list Tensor :=
  List.map
    (fun i =>
       let t := nth i xs (mkTensor [] []) in
       mkTensor (shape t)
         (List.map
            (fun j => (f (perturb i j 1 xs) - f (perturb i j (- (1)) xs)) / num 2 1)
            (seq 0 (List.length (data t)))))
    (seq 0 (List.length xs)).

(** No gradient is clipped by its norm in the toy runs. *)
Definition no_clipping (c : Num) (grads : list Tensor) : list Tensor := grads.

(** Gradient descent with the learning rate [lr]. *)
Definition sgd (lr : Num) : Optimizer :=
  fun grads vars => map2 (fun g x => tf.subtract x (tf.scale lr g)) grads vars.

Definition weight (vars : list Tensor) : Num :=
  nth 0 (data (nth 0 vars (mkTensor [] []))) 0.

(** [action = w * observation]. *)
Definition actor_net : ActorNetwork :=
  fun time_steps action_spec =>
    [fun vars =>
       tf.scale (weight vars) (nth 0 (observation time_steps) (mkTensor [] []))]%list.

(** [q = w * action]. *)
Definition critic_net : CriticNetwork :=
  fun time_steps actions vars =>
    tf.scale (weight vars) (nth 0 actions (mkTensor [] [])).

(** A critic whose Q-value is [q] for every sample. *)
Definition constant_critic (q : Num) : CriticNetwork :=
  fun time_steps actions vars =>
    tf.map (fun _ => q) (reward time_steps).

Definition action_spec : list BoundedTensorSpec :=
  [mkBoundedTensorSpec [] (num (-10) 1) (num 10 1)].

Definition agent (critic : CriticNetwork) (gamma : Num) (dqda_clipping : option Num)
    (period : nat) : DdpgAgent :=
  __init__ action_spec actor_net critic
    (Some (sgd (num 1 10))) (Some (sgd (num 1 10)))
    1 1 (num 1 2) period dqda_clipping None gamma 1 None false false.

Definition var (x : Num) : TFVariable := mkVariable true (mkTensor [] [x]).

(** Online actor 3, target actor 1, online critic 2, target critic 7. *)
Definition vars : Variables := mkVariables [var (num 3 1)] [var 1] [var (num 2 1)] [var (num 7 1)].

Definition world (a : DdpgAgent) (count : nat) : World := mkWorld a vars count 0 [].

(** One sample, two steps: observations 1 then 2, action 4 then 6, reward 1
    and discount 1 at both steps. *)
Definition experience : trajectory.Trajectory :=
  trajectory.mkTrajectory
    (mkTensor [1; 2]%nat [0; 1])
    [mkTensor [1; 2]%nat [1; num 2 1]]
    [mkTensor [1; 2]%nat [num 4 1; num 6 1]]
    (mkTensor [1; 2]%nat [1; 1])
    (mkTensor [1; 2]%nat [1; 1]).

(** The same with a window of three steps. *)
Definition long_experience : trajectory.Trajectory :=
  trajectory.mkTrajectory
    (mkTensor [1; 3]%nat [0; 1; 1])
    [mkTensor [1; 3]%nat [1; num 2 1; num 3 1]]
    [mkTensor [1; 3]%nat [num 4 1; num 6 1; num 8 1]]
    (mkTensor [1; 3]%nat [1; 1; 1])
    (mkTensor [1; 3]%nat [1; 1; 1]).


Definition time_steps : TimeStep :=
  mkTimeStep (mkTensor [1%nat] [0]) (mkTensor [1%nat] [1]) (mkTensor [1%nat] [1])
    [mkTensor [1%nat] [1]].

Definition next_time_steps : TimeStep :=
  mkTimeStep (mkTensor [1%nat] [1]) (mkTensor [1%nat] [1]) (mkTensor [1%nat] [1])
    [mkTensor [1%nat] [num 2 1]].

(** The next time steps of a transition that ends the episode: the discount
    is 0. *)
Definition last_time_steps : TimeStep :=
  mkTimeStep (mkTensor [1%nat] [num 2 1]) (mkTensor [1%nat] [1]) (mkTensor [1%nat] [0])
    [mkTensor [1%nat] [num 2 1]].



(** The toy agent with the update of the targets that [__init__] has by
    default: [target_update_tau = 1.0] and [target_update_period = 1]. *)
Definition default_agent : DdpgAgent :=
  __init__ action_spec actor_net critic_net
    (Some (sgd (num 1 10))) (Some (sgd (num 1 10)))
    1 1 1 1 None None (num 9 10) 1 None false false.

(** The variables of the toy world, the online critic having a variable
    more, which is not trained. *)
Definition vars_with_untrained : Variables :=
  mkVariables [var (num 3 1)] [var 1]
    [var (num 2 1); mkVariable false (mkTensor [] [num 5 1])]
    [var (num 7 1); mkVariable false (mkTensor [] [num 6 1])].

End toy.

(** * Properties *)

(** ** Order on the rationals *)

Lemma Qcleb_le (x y : Num) : Qcleb x y = true <-> x <= y.
Proof. unfold Qcleb, Qcle. apply Qle_bool_iff. Qed.

Lemma Qcleb_gt (x y : Num) : Qcleb x y = false -> y <= x.
Proof.
  intros H. apply Qcnot_lt_le. intros Hlt.
  apply Qclt_le_weak, Qcleb_le in Hlt. congruence.
Qed.

Lemma Qcplus_nonneg (x y : Num) : 0 <= x -> 0 <= y -> 0 <= x + y.
Proof.
  intros Hx Hy. replace 0 with (0 + 0) by ring.
  now apply Qcplus_le_compat.
Qed.

Lemma Qcmult_nonneg (x y : Num) : 0 <= x -> 0 <= y -> 0 <= x * y.
Proof.
  intros Hx Hy. replace 0 with (0 * y) by ring.
  now apply Qcmult_le_compat_r.
Qed.

Lemma Qcsquare_nonneg (x : Num) : 0 <= x * x.
Proof.
  destruct (Qclt_le_dec x 0) as [Hneg | Hpos].
  - replace (x * x) with ((- x) * (- x)) by ring.
    assert (0 <= - x).
    { replace 0 with (- 0) by ring. apply Qcopp_le_compat. now apply Qclt_le_weak. }
    now apply Qcmult_nonneg.
  - now apply Qcmult_nonneg.
Qed.

Lemma Qcinv_nonneg (x : Num) : 0 <= x -> 0 <= / x.
Proof.
  intros H. unfold Qcle in *. change (0 <= Qred (/ x))%Q.
  rewrite Qred_correct. now apply Qinv_le_0_compat.
Qed.

Lemma of_nat_nonneg (n : nat) : 0 <= of_nat n.
Proof.
  unfold Qcle. change (0 <= Qred (inject_Z (Z.of_nat n)))%Q.
  rewrite Qred_correct. change 0%Q with (inject_Z 0). rewrite <- Zle_Qle. lia.
Qed.

Lemma Qcmin_le_l (x y : Num) : Qcmin x y <= x.
Proof.
  unfold Qcmin. destruct (Qcleb x y) eqn:E.
  - apply Qcle_refl.
  - now apply Qcleb_gt.
Qed.

Lemma Qcmin_nonneg (x y : Num) : 0 <= x -> 0 <= y -> 0 <= Qcmin x y.
Proof. unfold Qcmin. now destruct (Qcleb x y). Qed.

(** ** The losses of TensorFlow *)

Lemma reduce_sum_nonneg (xs : list Num) :
  Forall (fun x => 0 <= x) xs -> 0 <= tf.reduce_sum xs.
Proof.
  induction 1 as [| x xs Hx _ IH]; simpl.
  - apply Qcle_refl.
  - now apply Qcplus_nonneg.
Qed.

Lemma reduce_mean_nonneg (xs : list Num) :
  Forall (fun x => 0 <= x) xs -> 0 <= tf.reduce_mean xs.
Proof.
  intros H. unfold tf.reduce_mean, Qcdiv. apply Qcmult_nonneg.
  - now apply reduce_sum_nonneg.
  - apply Qcinv_nonneg, of_nat_nonneg.
Qed.

Lemma Forall_map2 {A B C} (P : C -> Prop) (f : A -> B -> C) :
  (forall a b, P (f a b)) -> forall xs ys, Forall P (map2 f xs ys).
Proof.
  intros Hf. induction xs as [| x xs IH]; intros [| y ys]; simpl; auto.
Qed.

Lemma huber_nonneg (delta label prediction : Num) :
  0 <= delta -> 0 <= tf.huber delta label prediction.
Proof.
  intros Hd. unfold tf.huber.
  set (abs_error := Qcabs (prediction - label)).
  assert (Ha : 0 <= abs_error) by apply Qcabs_nonneg.
  apply Qcplus_nonneg.
  - apply Qcmult_nonneg; [ discriminate | apply Qcsquare_nonneg ].
  - apply Qcmult_nonneg; [ assumption | ].
    unfold Qcminus. rewrite <- Qcle_minus_iff. apply Qcmin_le_l.
Qed.

Lemma huber_loss_nonneg (labels predictions : Tensor) :
  0 <= tf.huber_loss labels predictions.
Proof.
  unfold tf.huber_loss. apply reduce_mean_nonneg, Forall_map2.
  intros. apply huber_nonneg. discriminate.
Qed.

(** ** The critic loss *)

Lemma td_targets_data (c g : Num) (r d q : list Num) :
  map2 Qcplus (List.map (Qcmult c) r) (map2 Qcmult (List.map (Qcmult g) d) q)
  = td_target_spec c g r d q.
Proof.
  revert d q. induction r as [| x r IH]; intros [| y d] [| z q]; simpl; auto.
  now rewrite IH.
Qed.

Lemma critic_loss_returns (w : World) (time_steps : TimeStep)
    (actions : list Tensor) (next_time_steps : TimeStep) :
  exists (crit : Graph Num) (w' : World),
    critic_loss time_steps actions next_time_steps w = OK (crit, w')
    /\ only_summaries w w'
    /\ forall s0 v,
         crit s0 v
         = critic_loss_spec (self w) time_steps actions next_time_steps s0 v.
Proof.
  unfold critic_loss, bind, get_self.
  destruct (_debug_summaries (self w));
    (eexists; eexists; split; [ reflexivity | split ]);
    try (repeat split; reflexivity);
    intros s0 v;
    unfold critic_loss_spec, lift2, stop_gradient, constant, call_critic_net,
      call_actor_net, nest, q_values_at, actions_at;
    rewrite List.map_map;
    unfold tf.add, tf.multiply, tf.zip_with; simpl;
    now rewrite td_targets_data.
Qed.

(** C1: [critic_loss] returns the loss function of the agent between the TD
    target and the Q-values of the online critic at the recorded actions.
    The TD target is
    [reward_scale_factor * next_reward + gamma * next_discount * target_q],
    where [target_q] is the target critic at the action of the target actor;
    it is read at the variables of the run and does not move with the point
    of differentiation, so no gradient flows through it: the loss depends on
    that point through the online critic alone.  With the default Huber loss
    the critic loss is not negative. *)
Theorem critic_loss_td_target :
  forall (w : World) (time_steps : TimeStep) (actions : list Tensor)
         (next_time_steps : TimeStep),
  exists (crit : Graph Num) (w' : World),
    critic_loss time_steps actions next_time_steps w = OK (crit, w')
    /\ (forall s0 v,
          crit s0 v
          = critic_loss_spec (self w) time_steps actions next_time_steps s0 v)
    /\ (forall s0 v v',
          critic_net_variables v = critic_net_variables v' ->
          crit s0 v = crit s0 v')
    /\ (_td_errors_loss_fn (self w) = tf.huber_loss ->
        forall s0 v, 0 <= crit s0 v).
Proof.
  intros w ts actions nts.
  destruct (critic_loss_returns w ts actions nts) as (crit & w' & Hrun & _ & Hspec).
  exists crit, w'. repeat split; auto.
  - intros s0 v v' Hv. rewrite !Hspec. unfold critic_loss_spec, q_values_at.
    simpl. now rewrite Hv.
  - intros Hloss s0 v. rewrite Hspec. unfold critic_loss_spec.
    rewrite Hloss. apply huber_loss_nonneg.
Qed.

(** The example of the spec: with a target critic that answers 5, a reward
    and a discount of 1, [gamma = 0.9] and a reward scale of 1, the TD target
    is 5.5; the online critic answers 5 too and the Huber loss is 1/8. *)
Lemma critic_loss_example :
  let agent := toy.agent (toy.constant_critic (num 5 1)) (num 9 10) None 1 in
  exists (crit : Graph Num) (w' : World),
    critic_loss toy.time_steps [mkTensor [1%nat] [num 4 1]] toy.next_time_steps
      (toy.world agent 0) = OK (crit, w')
    /\ eval crit toy.vars
       = tf.huber_loss (mkTensor [1%nat] [num 11 2]) (mkTensor [1%nat] [num 5 1])
    /\ eval crit toy.vars = num 1 8
    /\ 0 <= eval crit toy.vars.
Proof.
  intros agent.
  destruct (critic_loss_td_target (toy.world agent 0) toy.time_steps
              [mkTensor [1%nat] [num 4 1]] toy.next_time_steps)
    as (crit & w' & Hrun & Hspec & _ & Hpos).
  exists crit, w'. split; [ exact Hrun | ].
  unfold eval. repeat split.
  - rewrite Hspec. apply Qc_is_canon. vm_compute. reflexivity.
  - rewrite Hspec. apply Qc_is_canon. vm_compute. reflexivity.
  - apply Hpos. reflexivity.
Defined.

(** ** The actor loss *)

Lemma actor_loss_step_app (agent : DdpgAgent) (acc : list (Graph Num))
    (pair : Graph Tensor * Graph Tensor) :
  actor_loss_step agent acc pair = acc ++ actor_loss_step agent [] pair.
Proof. destruct pair. reflexivity. Qed.

Lemma fold_actor_loss_step (agent : DdpgAgent)
    (pairs : list (Graph Tensor * Graph Tensor)) (acc : list (Graph Num)) :
  fold_left (actor_loss_step agent) pairs acc
  = acc ++ flat_map (actor_loss_step agent []) pairs.
Proof.
  revert acc. induction pairs as [| p pairs IH]; intros acc; simpl.
  - now rewrite app_nil_r.
  - rewrite IH, actor_loss_step_app. now rewrite <- app_assoc.
Qed.

Lemma fold_left_plus (ls : list (Graph Num)) (x : Graph Num) (s0 v : Variables) :
  fold_left (lift2 Qcplus) ls x s0 v
  = x s0 v + tf.reduce_sum (List.map (fun l => l s0 v) ls).
Proof.
  revert x. induction ls as [| l ls IH]; intros x; simpl.
  - ring.
  - rewrite IH. unfold lift2. ring.
Qed.

Lemma add_n_graph (ls : list (Graph Num)) :
  ls <> [] ->
  exists total : Graph Num,
    tf.add_n (lift2 Qcplus) ls = OK total
    /\ forall s0 v, total s0 v = tf.reduce_sum (List.map (fun l => l s0 v) ls).
Proof.
  destruct ls as [| l ls]; [ congruence | intros _ ].
  eexists. split; [ reflexivity | ].
  intros s0 v. now rewrite fold_left_plus.
Qed.

Lemma combine_map_seq {A B} (g : nat -> A) (d : B) (l : list B) (k : nat) :
  combine (List.map g (seq k (List.length l))) l
  = List.map (fun i => (g i, nth (i - k) l d)) (seq k (List.length l)).
Proof.
  revert k. induction l as [| x l IH]; intros k; simpl; [ reflexivity | ].
  rewrite Nat.sub_diag. f_equal. rewrite IH.
  apply map_ext_in. intros i Hi. apply in_seq in Hi.
  replace (i - k)%nat with (S (i - S k)) by lia. reflexivity.
Qed.

Lemma flat_map_singleton {A B} (f : A -> B) (l : list A) :
  flat_map (fun x => f x :: nil) l = List.map f l.
Proof. induction l; simpl; congruence. Qed.

Lemma nth_map_default {A B} (f : A -> B) (l : list A) (i : nat) (d : B) (d0 : A) :
  (i < List.length l)%nat -> nth i (List.map f l) d = f (nth i l d0).
Proof.
  intros Hi. rewrite (nth_indep _ _ (f d0)) by now rewrite length_map.
  apply map_nth.
Qed.

Lemma actor_loss_returns
    (tf_gradients : (list Tensor -> Num) -> list Tensor -> list Tensor)
    (w : World) (time_steps : TimeStep) :
  _actor_net (self w) time_steps (_action_spec (self w)) <> [] ->
  exists (act : Graph Num) (w' : World),
    actor_loss tf_gradients time_steps w = OK (act, w')
    /\ only_summaries w w'
    /\ forall s0 v, act s0 v = actor_loss_spec tf_gradients (self w) time_steps s0 v.
Proof.
  intros Hne. unfold actor_loss, bind, get_self.
  rewrite fold_actor_loss_step. simpl app.
  set (actions := call_actor_net (self w) ACTOR_NET_SCOPE time_steps).
  set (dqda := gradients tf_gradients _ actions).
  destruct (add_n_graph (flat_map (actor_loss_step (self w) []) (combine dqda actions)))
    as (total & Hadd & Htotal).
  { unfold dqda, gradients, actions, call_actor_net.
    destruct (_actor_net (self w) time_steps (_action_spec (self w)));
      [ congruence | discriminate ]. }
  rewrite Hadd. simpl.
  exists total. eexists. split; [ reflexivity | split ].
  { repeat split; reflexivity. }
  intros s0 v. rewrite Htotal. unfold actor_loss_spec. f_equal.
  unfold dqda, gradients.
  rewrite (combine_map_seq _ (constant (mkTensor [] [])) actions 0).
  assert (Hlen : List.length (actions_at (self w) ACTOR_NET_SCOPE time_steps s0)
                 = List.length actions).
  { unfold actions_at, actions, call_actor_net. now rewrite !length_map. }
  rewrite Hlen.
  assert (Hnth : forall i s v',
            (i < List.length actions)%nat ->
            nth i actions (constant (mkTensor [] [])) s v'
            = nth i (actions_at (self w) ACTOR_NET_SCOPE time_steps v') (mkTensor [] [])).
  { intros i s v' Hi. unfold actions, call_actor_net, actions_at in *.
    rewrite length_map in Hi.
    rewrite (nth_map_default _ _ _ _ (fun _ => mkTensor [] [])) by assumption.
    now rewrite (nth_map_default _ _ _ _ (fun _ => mkTensor [] [])) by assumption. }
  assert (Hnest : nest actions s0 s0 = actions_at (self w) ACTOR_NET_SCOPE time_steps s0).
  { unfold nest, actions, call_actor_net, actions_at. now rewrite List.map_map. }
  rewrite flat_map_concat_map, List.map_map, <- flat_map_concat_map.
  unfold actor_loss_step. simpl app.
  rewrite (flat_map_singleton _ (seq 0 (List.length actions))), List.map_map.
  apply map_ext_in. intros i Hi. apply in_seq in Hi.
  unfold lift2, stop_gradient, clip_dqda.
  rewrite Nat.sub_0_r.
  destruct (_dqda_clipping (self w)); unfold lift;
    rewrite !Hnth, Hnest by lia; reflexivity.
Qed.

Lemma actor_loss_empty_nest
    (tf_gradients : (list Tensor -> Num) -> list Tensor -> list Tensor)
    (w : World) (time_steps : TimeStep) :
  _actor_net (self w) time_steps (_action_spec (self w)) = [] ->
  actor_loss tf_gradients time_steps w = Raise ValueError.
Proof.
  intros Hnil. unfold actor_loss, bind, get_self, call_actor_net, gradients.
  now rewrite Hnil.
Qed.

(** C2: [actor_loss] takes the actions of the online actor and the Q-values
    of the online critic at them, differentiates the Q-values with respect
    to each component of the action, clips the gradient when a bound is
    configured, and returns the sum over the components of the mean squared
    error between [dqda + action], frozen at the run, and the action. *)
Theorem actor_loss_sums_component_losses :
  forall (tf_gradients : (list Tensor -> Num) -> list Tensor -> list Tensor)
         (w : World) (time_steps : TimeStep),
  _actor_net (self w) time_steps (_action_spec (self w)) <> [] ->
  exists (act : Graph Num) (w' : World),
    actor_loss tf_gradients time_steps w = OK (act, w')
    /\ forall s0 v, act s0 v = actor_loss_spec tf_gradients (self w) time_steps s0 v.
Proof.
  intros tf_gradients w ts Hne.
  destruct (actor_loss_returns tf_gradients w ts Hne) as (act & w' & Hrun & _ & Hspec).
  now exists act, w'.
Qed.

(** The toy agent: the action is 3, the critic [q = 2 * action] has the
    gradient 2, and the actor loss is the square of it. *)
Lemma actor_loss_example :
  let agent := toy.agent toy.critic_net (num 9 10) None 1 in
  toy.actor_net toy.time_steps toy.action_spec <> []
  /\ exists (act : Graph Num) (w' : World),
       actor_loss toy.central_differences toy.time_steps (toy.world agent 0)
       = OK (act, w')
       /\ eval act toy.vars = num 4 1.
Proof.
  intros agent.
  assert (Hne : toy.actor_net toy.time_steps toy.action_spec <> []) by discriminate.
  split; [ exact Hne | ].
  destruct (actor_loss_sums_component_losses toy.central_differences
              (toy.world agent 0) toy.time_steps Hne)
    as (act & w' & Hrun & Hspec).
  exists act, w'. split; [ exact Hrun | ].
  unfold eval. rewrite Hspec. apply Qc_is_canon. vm_compute. reflexivity.
Defined.

Lemma clip_by_value_zero (t : Tensor) :
  tf.clip_by_value t (num (-1) 1 * 0) 0 = tf.map (fun _ => 0) t.
Proof.
  unfold tf.clip_by_value, tf.map. f_equal. apply map_ext. intros x.
  replace (num (-1) 1 * 0) with 0 by ring.
  unfold Qcmax. destruct (Qcleb (Qcmin x 0) 0) eqn:E; [ reflexivity | ].
  apply Qcleb_gt in E. apply Qcle_antisym; [ | assumption ].
  unfold Qcmin. destruct (Qcleb x 0) eqn:E'.
  - now apply Qcleb_le.
  - apply Qcle_refl.
Qed.

Lemma Qcmin_le_r (x y : Num) : Qcmin x y <= y.
Proof.
  unfold Qcmin. destruct (Qcleb x y) eqn:E.
  - now apply Qcleb_le.
  - apply Qcle_refl.
Qed.

Lemma clip_dqda_unset (agent : DdpgAgent) (dqda : Tensor) :
  _dqda_clipping agent = None -> clip_dqda agent dqda = dqda.
Proof. unfold clip_dqda. now intros ->. Qed.

Lemma clip_dqda_bounded (agent : DdpgAgent) (c : Num) (dqda : Tensor) :
  _dqda_clipping agent = Some c -> 0 <= c ->
  Forall (fun x => - c <= x /\ x <= c) (data (clip_dqda agent dqda)).
Proof.
  intros Hc Hpos. unfold clip_dqda. rewrite Hc. simpl.
  apply Forall_forall. intros y Hy. apply in_map_iff in Hy as (x & <- & _).
  replace (num (-1) 1) with (- (1)) by (apply Qc_is_canon; reflexivity).
  replace (- (1) * c) with (- c) by ring.
  assert (Hneg : - c <= c).
  { apply Qcle_trans with 0; [ | assumption ].
    replace 0 with (- 0) by ring. now apply Qcopp_le_compat. }
  unfold Qcmax. destruct (Qcleb (Qcmin x c) (- c)) eqn:E.
  - split; [ apply Qcle_refl | assumption ].
  - split; [ now apply Qcleb_gt | apply Qcmin_le_r ].
Qed.

(** C3, at an agent configured with [dqda_clipping = 0]: the gradient of the
    toy critic is 2 and the actor loss without clipping is 4, but with the
    bound 0 the gradient is clipped to [[0, 0]] and the actor loss is 0; the
    bound 0 does not disable the clipping. *)
Theorem dqda_clipping_zero_clips :
  let run dqda_clipping :=
    actor_loss toy.central_differences toy.time_steps
      (toy.world (toy.agent toy.critic_net (num 9 10) dqda_clipping 1) 0) in
  (exists act w', run None = OK (act, w') /\ eval act toy.vars = num 4 1)
  /\ (exists act w', run (Some 0) = OK (act, w') /\ eval act toy.vars = 0)
  /\ clip_dqda (toy.agent toy.critic_net (num 9 10) (Some 0) 1)
       (mkTensor [1%nat] [num 2 1])
     = mkTensor [1%nat] [0].
Proof.
  intros run. split; [| split ].
  - destruct (actor_loss_returns toy.central_differences
                (toy.world (toy.agent toy.critic_net (num 9 10) None 1) 0)
                toy.time_steps) as (act & w' & Hrun & _ & Hspec);
      [ discriminate | ].
    exists act, w'. split; [ exact Hrun | ].
    unfold eval. rewrite Hspec. apply Qc_is_canon. vm_compute. reflexivity.
  - destruct (actor_loss_returns toy.central_differences
                (toy.world (toy.agent toy.critic_net (num 9 10) (Some 0) 1) 0)
                toy.time_steps) as (act & w' & Hrun & _ & Hspec);
      [ discriminate | ].
    exists act, w'. split; [ exact Hrun | ].
    unfold eval. rewrite Hspec. apply Qc_is_canon. vm_compute. reflexivity.
  - unfold clip_dqda. simpl. now rewrite clip_by_value_zero.
Qed.

(** C10: the two losses only write summaries: whatever they are given, the
    agent, the variables of the four networks, the counter of the periodic
    update and the step counter are after the call what they were before
    it; and [critic_loss] always returns. *)
Theorem losses_are_read_only :
  forall (tf_gradients : (list Tensor -> Num) -> list Tensor -> list Tensor)
         (w : World) (time_steps : TimeStep) (actions : list Tensor)
         (next_time_steps : TimeStep),
  (exists crit w',
     critic_loss time_steps actions next_time_steps w = OK (crit, w')
     /\ only_summaries w w')
  /\ (forall act w',
        actor_loss tf_gradients time_steps w = OK (act, w') ->
        only_summaries w w').
Proof.
  intros tf_gradients w ts actions nts. split.
  - destruct (critic_loss_returns w ts actions nts) as (crit & w' & Hrun & Hframe & _).
    now exists crit, w'.
  - intros act w' Hrun.
    destruct (_actor_net (self w) ts (_action_spec (self w))) eqn:Houts.
    + rewrite actor_loss_empty_nest in Hrun by assumption. discriminate.
    + destruct (actor_loss_returns tf_gradients w ts) as (act' & w'' & Hrun' & Hframe & _).
      { rewrite Houts. discriminate. }
      rewrite Hrun in Hrun'. now inversion Hrun'; subst.
Qed.

Lemma losses_are_read_only_example :
  let w := toy.world (toy.agent toy.critic_net (num 9 10) None 1) 0 in
  exists act w',
    actor_loss toy.central_differences toy.time_steps w = OK (act, w')
    /\ only_summaries w w'.
Proof.
  intros w.
  destruct (actor_loss_returns toy.central_differences w toy.time_steps)
    as (act & w' & Hrun & _ & _); [ discriminate | ].
  exists act, w'. split; [ exact Hrun | ].
  exact (proj2 (losses_are_read_only toy.central_differences w toy.time_steps
                  [] toy.next_time_steps) act w' Hrun).
Defined.

(** ** The soft update of the targets *)

Lemma blend_hard (ds dt : list Num) :
  List.length ds = List.length dt ->
  map2 Qcplus (List.map (Qcmult (1 - 1)) dt) (List.map (Qcmult 1) ds) = ds.
Proof.
  revert dt. induction ds as [| x ds IH]; intros [| y dt] Hlen; simpl in *;
    try discriminate; [ reflexivity | ].
  rewrite IH by lia. f_equal. ring.
Qed.

Lemma blend_none (ds dt : list Num) :
  List.length ds = List.length dt ->
  map2 Qcplus (List.map (Qcmult (1 - 0)) dt) (List.map (Qcmult 0) ds) = dt.
Proof.
  revert dt. induction ds as [| x ds IH]; intros [| y dt] Hlen; simpl in *;
    try discriminate; [ reflexivity | ].
  rewrite IH by lia. f_equal. ring.
Qed.

Lemma soft_variables_update_hard (source target : list TFVariable) :
  Forall2 same_shape source target ->
  values (common_utils.soft_variables_update source target 1) = values source.
Proof.
  induction 1 as [| v_s v_t source target [Hshape Hlen] _ IH]; simpl.
  - reflexivity.
  - rewrite IH. f_equal.
    unfold tf.add, tf.scale, tf.zip_with, tf.map. simpl.
    rewrite blend_hard by assumption. rewrite <- Hshape. now destruct (value v_s).
Qed.

Lemma soft_variables_update_none (source target : list TFVariable) :
  Forall2 same_shape source target ->
  common_utils.soft_variables_update source target 0 = target.
Proof.
  induction 1 as [| v_s v_t source target [Hshape Hlen] _ IH]; simpl.
  - reflexivity.
  - rewrite IH. f_equal.
    unfold assign, tf.add, tf.scale, tf.zip_with, tf.map. simpl.
    rewrite blend_none by assumption. destruct v_t as [tr [sh dt]]. reflexivity.
Qed.

Lemma gate_divide (period count : nat) :
  (count mod period =? 0)%nat = true <-> Nat.divide period count.
Proof.
  rewrite Nat.eqb_eq. destruct period as [| p].
  - simpl. split.
    + intros ->. apply Nat.divide_0_r.
    + intros [k Hk]. lia.
  - apply Nat.Lcm0.mod_divide.
Qed.

(** C4: [initialize] is the soft update with [tau = 1] and the period 1;
    when the target networks have the variables of the online networks, with
    the same shapes, every target variable holds after it the value of its
    online counterpart, whatever it held before; the online variables are
    not touched. *)
Theorem initialize_copies_online_to_target :
  forall w : World,
  compatible (variables w) ->
  exists w' : World,
    _initialize w = OK (tt, w')
    /\ values (target_critic_net_variables (variables w'))
       = values (critic_net_variables (variables w'))
    /\ values (target_actor_net_variables (variables w'))
       = values (actor_net_variables (variables w'))
    /\ critic_net_variables (variables w') = critic_net_variables (variables w)
    /\ actor_net_variables (variables w') = actor_net_variables (variables w).
Proof.
  intros w [Hcritic Hactor].
  unfold _initialize, _update_targets, common_utils.periodically, bind,
    get_counter, put_counter, get_variables, put_variables.
  simpl. eexists. split; [ reflexivity | ]. simpl.
  repeat split; auto using soft_variables_update_hard.
Qed.

Lemma initialize_example :
  let w := toy.world (toy.agent toy.critic_net (num 9 10) None 2) 1 in
  compatible (variables w)
  /\ exists w',
       _initialize w = OK (tt, w')
       /\ values (target_critic_net_variables (variables w'))
          = [mkTensor [] [num 2 1]]%list
       /\ values (target_actor_net_variables (variables w'))
          = [mkTensor [] [num 3 1]]%list.
Proof.
  intros w.
  assert (Hc : compatible (variables w)).
  { split; repeat constructor. }
  split; [ exact Hc | ].
  destruct (initialize_copies_online_to_target w Hc)
    as (w' & Hrun & Hcritic & Hactor & Hc' & Ha').
  exists w'. split; [ exact Hrun | ].
  rewrite Hcritic, Hactor, Hc', Ha'. split; reflexivity.
Defined.

Lemma update_targets_returns (tau : Num) (period : nat) (w : World) :
  exists w' : World,
    _update_targets tau period w = OK (tt, w')
    /\ self w' = self w
    /\ counter w' = S (counter w)
    /\ train_steps w' = train_steps w
    /\ variables w'
       = if (counter w mod period =? 0)%nat then
           set_variables TARGET_ACTOR_NET_SCOPE
             (common_utils.soft_variables_update (actor_net_variables (variables w))
                (target_actor_net_variables (variables w)) tau)
             (set_variables TARGET_CRITIC_NET_SCOPE
                (common_utils.soft_variables_update (critic_net_variables (variables w))
                   (target_critic_net_variables (variables w)) tau)
                (variables w))
         else variables w.
Proof.
  unfold _update_targets, common_utils.periodically, bind, get_counter, put_counter.
  simpl.
  destruct (counter w mod period =? 0)%nat; eexists; (split; [ reflexivity | ]);
    simpl; repeat split; reflexivity.
Qed.

(** C6: the soft update of a period [p] always returns and counts the call;
    on a call whose count is not a multiple of [p] it leaves every variable
    as it was, and on a call whose count is one it blends the online
    variables into the target ones. *)
Theorem update_targets_is_periodic :
  forall (tau : Num) (period : nat) (w : World),
  exists w' : World,
    _update_targets tau period w = OK (tt, w')
    /\ self w' = self w
    /\ counter w' = S (counter w)
    /\ (~ Nat.divide period (counter w) -> variables w' = variables w)
    /\ (Nat.divide period (counter w) ->
        target_critic_net_variables (variables w')
        = common_utils.soft_variables_update (critic_net_variables (variables w))
            (target_critic_net_variables (variables w)) tau
        /\ target_actor_net_variables (variables w')
           = common_utils.soft_variables_update (actor_net_variables (variables w))
               (target_actor_net_variables (variables w)) tau
        /\ critic_net_variables (variables w') = critic_net_variables (variables w)
        /\ actor_net_variables (variables w') = actor_net_variables (variables w)).
Proof.
  intros tau period w.
  destruct (update_targets_returns tau period w)
    as (w' & Hrun & Hself & Hcount & _ & Hvars).
  exists w'. split; [ exact Hrun | ]. split; [ exact Hself | ].
  split; [ exact Hcount | ]. split.
  - intros Hnot. rewrite Hvars.
    destruct (counter w mod period =? 0)%nat eqn:Hgate; [ | reflexivity ].
    apply gate_divide in Hgate. contradiction.
  - intros Hdiv. apply gate_divide in Hdiv. rewrite Hvars, Hdiv.
    repeat split; reflexivity.
Qed.

Lemma update_targets_skipped_example :
  let w := toy.world (toy.agent toy.critic_net (num 9 10) None 2) 1 in
  ~ Nat.divide 2 (counter w)
  /\ exists w',
       _update_targets (num 1 2) 2 w = OK (tt, w')
       /\ counter w' = 2%nat
       /\ variables w' = toy.vars.
Proof.
  intros w.
  assert (Hodd : ~ Nat.divide 2 (counter w)).
  { intros [k Hk]. simpl in Hk. lia. }
  split; [ exact Hodd | ].
  destruct (update_targets_is_periodic (num 1 2) 2 w)
    as (w' & Hrun & _ & Hcount & Hskip & _).
  exists w'. split; [ exact Hrun | ]. split; [ exact Hcount | ].
  exact (Hskip Hodd).
Defined.

(** C7: with [tau = 0] the soft update changes no variable, whatever the
    online and the target variables hold and whatever the period is. *)
Theorem update_targets_tau_zero_is_noop :
  forall (period : nat) (w : World),
  compatible (variables w) ->
  exists w' : World,
    _update_targets 0 period w = OK (tt, w')
    /\ variables w' = variables w.
Proof.
  intros period w [Hcritic Hactor].
  unfold _update_targets, common_utils.periodically, bind, get_counter, put_counter,
    get_variables, put_variables.
  simpl.
  destruct (counter w mod period =? 0)%nat; eexists; (split; [ reflexivity | ]);
    simpl; [ | reflexivity ].
  rewrite !soft_variables_update_none by assumption.
  now destruct (variables w).
Qed.

Lemma update_targets_tau_zero_example :
  let w := toy.world (toy.agent toy.critic_net (num 9 10) None 1) 0 in
  compatible (variables w)
  /\ exists w', _update_targets 0 1 w = OK (tt, w') /\ variables w' = toy.vars.
Proof.
  intros w.
  assert (Hc : compatible (variables w)).
  { split; repeat constructor. }
  split; [ exact Hc | ].
  exact (update_targets_tau_zero_is_noop 1 w Hc).
Defined.

(** ** The extraction of the transitions *)

Lemma map_result_ok {A B} (f : A -> Result B) (P : A -> Prop) (R : A -> B -> Prop) :
  (forall x, P x -> exists y, f x = OK y /\ R x y) ->
  forall l, Forall P l -> exists l', map_result f l = OK l' /\ Forall2 R l l'.
Proof.
  intros Hf. induction 1 as [| x l Hx _ (l' & Hl' & HR)]; simpl.
  - exists []. split; [ reflexivity | constructor ].
  - destruct (Hf x Hx) as (y & Hy & Hxy).
    exists (y :: l'). rewrite Hy, Hl'. split; [ reflexivity | now constructor ].
Qed.

Lemma Forall2_compose {A B C} (R1 : A -> B -> Prop) (R2 : B -> C -> Prop)
    (R : A -> C -> Prop) :
  (forall x y z, R1 x y -> R2 y z -> R x z) ->
  forall l1 l2 l3, Forall2 R1 l1 l2 -> Forall2 R2 l2 l3 -> Forall2 R l1 l3.
Proof.
  intros HR l1 l2 l3 H12. revert l3.
  induction H12; intros l3 H23; inversion H23; subst; constructor; eauto.
Qed.

Lemma Forall2_Forall_r {A B} (R : A -> B -> Prop) (Q : B -> Prop) :
  (forall x y, R x y -> Q y) ->
  forall l l', Forall2 R l l' -> Forall Q l'.
Proof. intros HQ l l'. induction 1; constructor; eauto. Qed.

Lemma nth_concat_rows {A} (d : A) (m n : nat) :
  (m <= n)%nat ->
  forall (b : nat) (l : list A) (i k : nat),
  List.length l = (b * n)%nat -> (i < b)%nat -> (k < m)%nat ->
  nth (i * m + k) (concat (List.map (firstn m) (trajectory.rows b n l))) d
  = nth (i * n + k) l d.
Proof.
  intros Hmn. induction b as [| b IH]; intros l i k Hlen Hi Hk; [ lia | ].
  simpl. assert (Hn : (n <= List.length l)%nat) by lia.
  assert (Hfirst : List.length (firstn m (firstn n l)) = m).
  { rewrite !length_firstn. lia. }
  destruct i as [| i].
  - simpl. rewrite app_nth1 by lia.
    rewrite firstn_firstn, Nat.min_l by lia.
    rewrite nth_firstn. now apply Nat.ltb_lt in Hk as ->.
  - replace (S i * m + k)%nat with (m + (i * m + k))%nat by lia.
    rewrite app_nth2 by lia. rewrite Hfirst.
    replace (m + (i * m + k) - m)%nat with (i * m + k)%nat by lia.
    rewrite IH; try lia.
    + rewrite nth_skipn. f_equal. lia.
    + rewrite length_skipn. lia.
Qed.

Lemma current_steps_window (t : nat) (x : Tensor) :
  window t x ->
  exists y, trajectory.current_steps x = OK y /\ window (t - 1) y.
Proof.
  intros (b & rest & Hx). unfold trajectory.current_steps. rewrite Hx.
  eexists. split; [ reflexivity | ]. now exists b, rest.
Qed.

Lemma next_steps_window (t : nat) (x : Tensor) :
  window t x ->
  exists y, trajectory.next_steps x = OK y /\ window (t - 1) y.
Proof.
  intros (b & rest & Hx). unfold trajectory.next_steps. rewrite Hx.
  eexists. split; [ reflexivity | ]. now exists b, rest.
Qed.

Lemma squeeze_window (y : Tensor) :
  window 1 y -> exists z, tf.squeeze y = OK z /\ squeezed y z /\ data z = data y.
Proof.
  intros (b & rest & Hy). unfold tf.squeeze, squeezed. rewrite Hy.
  eexists. split; [ reflexivity | ]. split; reflexivity.
Qed.

Lemma squeeze_other_window (t : nat) (y : Tensor) :
  window t y -> t <> 1%nat -> tf.squeeze y = Raise InvalidInputError.
Proof.
  intros (b & rest & Hy) Ht. unfold tf.squeeze. rewrite Hy.
  destruct t as [| [| t]]; congruence.
Qed.

Lemma current_steps_squeezed (x y z : Tensor) :
  window 2 x -> trajectory.current_steps x = OK y -> tf.squeeze y = OK z ->
  recorded_action x z.
Proof.
  intros (b & rest & Hx) Hy Hz.
  unfold trajectory.current_steps in Hy. rewrite Hx in Hy.
  injection Hy as <-. unfold tf.squeeze in Hz. simpl in Hz. injection Hz as <-.
  split.
  - unfold squeezed. now rewrite Hx.
  - intros b' rest' i k Hx' Hlen Hi Hk. rewrite Hx in Hx'.
    injection Hx' as <- <-. simpl data. rewrite Nat.add_0_r.
    replace (trajectory.prod rest + trajectory.prod rest)%nat
      with (2 * trajectory.prod rest)%nat by lia.
    apply nth_concat_rows; auto; lia.
Qed.

Lemma next_steps_squeezed (x y z : Tensor) :
  window 2 x -> trajectory.next_steps x = OK y -> tf.squeeze y = OK z ->
  squeezed x z.
Proof.
  intros (b & rest & Hx) Hy Hz.
  unfold trajectory.next_steps in Hy. rewrite Hx in Hy.
  injection Hy as <-. unfold tf.squeeze in Hz. simpl in Hz. injection Hz as <-.
  unfold squeezed. now rewrite Hx.
Qed.

Lemma slice_list (t : nat) (slice : Tensor -> Result Tensor) (xs : list Tensor) :
  (forall x, window t x -> exists y, slice x = OK y /\ window (t - 1) y) ->
  Forall (window t) xs ->
  exists ys,
    map_result slice xs = OK ys
    /\ Forall2 (fun x y => window t x /\ slice x = OK y) xs ys
    /\ Forall (window (t - 1)) ys.
Proof.
  intros Hslice Hxs.
  destruct (map_result_ok slice (window t)
              (fun x y => (window t x /\ slice x = OK y) /\ window (t - 1) y))
    with (l := xs) as (ys & Hys & HR); auto.
  { intros x Hx. destruct (Hslice x Hx) as (y & Hy & Hw). now exists y. }
  exists ys. split; [ assumption | split ].
  - eapply Forall2_impl; [ | exact HR ]. now intros x y [H _].
  - eapply Forall2_Forall_r; [ | exact HR ]. now intros x y [_ H].
Qed.

Lemma squeeze_list (slice : Tensor -> Result Tensor) (R : Tensor -> Tensor -> Prop)
    (xs ys : list Tensor) :
  (forall x y z, window 2 x -> slice x = OK y -> tf.squeeze y = OK z -> R x z) ->
  Forall2 (fun x y => window 2 x /\ slice x = OK y) xs ys ->
  Forall (window 1) ys ->
  exists zs, map_result tf.squeeze ys = OK zs /\ Forall2 R xs zs.
Proof.
  intros HR Hxy Hys.
  destruct (map_result_ok tf.squeeze (window 1) (fun y z => tf.squeeze y = OK z))
    with (l := ys) as (zs & Hzs & Hyz); auto.
  { intros y Hy. destruct (squeeze_window y Hy) as (z & Hz & _). now exists z. }
  exists zs. split; [ assumption | ].
  eapply Forall2_compose; [ | exact Hxy | exact Hyz ].
  intros x y z [Hx Hy] Hz. eauto.
Qed.

(** C5: on a batch of experience whose window has [t] steps, the extraction
    of the transitions raises [InvalidInputError] when [t] is not 2; when it
    is 2, it returns time steps, actions and next time steps whose tensors
    have the shape of the batch without the time axis, and the actions are
    the ones recorded at the first step of the window. *)
Theorem experience_to_transitions_window :
  forall (experience : trajectory.Trajectory) (t : nat),
  experience_window t experience ->
  (t <> 2%nat -> _experience_to_transitions experience = Raise InvalidInputError)
  /\ (t = 2%nat ->
      exists time_steps actions next_time_steps,
        _experience_to_transitions experience
        = OK (time_steps, actions, next_time_steps)
        /\ squeezed_time_step experience time_steps
        /\ squeezed_time_step experience next_time_steps
        /\ Forall2 recorded_action (trajectory.action experience) actions).
Proof.
  intros e t (Hst & Hr & Hd & Ho & Ha).
  destruct (current_steps_window t _ Hst) as (st1 & Est1 & Wst1).
  destruct (current_steps_window t _ Hr) as (r1 & Er1 & Wr1).
  destruct (current_steps_window t _ Hd) as (d1 & Ed1 & Wd1).
  destruct (slice_list t _ _ (current_steps_window t) Ho) as (o1 & Eo1 & Ro1 & Wo1).
  destruct (slice_list t _ _ (current_steps_window t) Ha) as (a1 & Ea1 & Ra1 & Wa1).
  destruct (next_steps_window t _ Hst) as (st2 & Est2 & Wst2).
  destruct (next_steps_window t _ Hr) as (r2 & Er2 & Wr2).
  destruct (next_steps_window t _ Hd) as (d2 & Ed2 & Wd2).
  destruct (slice_list t _ _ (next_steps_window t) Ho) as (o2 & Eo2 & Ro2 & Wo2).
  assert (Htrans : trajectory.to_transition e
                   = OK (mkTimeStep st1 r1 d1 o1, mkPolicyStep a1,
                         mkTimeStep st2 r2 d2 o2)).
  { unfold trajectory.to_transition, trajectory.map_time_step.
    rewrite Est1, Er1, Ed1, Eo1, Ea1, Est2, Er2, Ed2, Eo2. reflexivity. }
  unfold _experience_to_transitions. rewrite Htrans. simpl rbind.
  split.
  - intros Ht. unfold squeeze_time_step. simpl step_type.
    rewrite (squeeze_other_window (t - 1) st1) by (auto; lia). reflexivity.
  - intros ->. simpl in *.
    destruct (squeeze_window _ Wst1) as (st1' & Sst1 & _).
    destruct (squeeze_window _ Wr1) as (r1' & Sr1 & _).
    destruct (squeeze_window _ Wd1) as (d1' & Sd1 & _).
    destruct (squeeze_list _ recorded_action _ _ current_steps_squeezed Ro1 Wo1)
      as (o1' & So1 & Fo1).
    destruct (squeeze_list _ recorded_action _ _ current_steps_squeezed Ra1 Wa1)
      as (a1' & Sa1 & Fa1).
    destruct (squeeze_window _ Wst2) as (st2' & Sst2 & _).
    destruct (squeeze_window _ Wr2) as (r2' & Sr2 & _).
    destruct (squeeze_window _ Wd2) as (d2' & Sd2 & _).
    destruct (squeeze_list _ squeezed _ _ next_steps_squeezed Ro2 Wo2)
      as (o2' & So2 & Fo2).
    exists (mkTimeStep st1' r1' d1' o1'), a1', (mkTimeStep st2' r2' d2' o2').
    unfold squeeze_time_step. simpl.
    rewrite Sst1, Sr1, Sd1, So1, Sa1, Sst2, Sr2, Sd2, So2. simpl.
    split; [ reflexivity | ].
    repeat split; simpl;
      try (eapply current_steps_squeezed; eassumption);
      try (eapply next_steps_squeezed; eassumption);
      try assumption.
    eapply Forall2_impl; [ | exact Fo1 ]. now intros x z [H _].
Qed.

Lemma experience_to_transitions_example :
  experience_window 2 toy.experience
  /\ experience_window 3 toy.long_experience
  /\ _experience_to_transitions toy.long_experience = Raise InvalidInputError
  /\ exists time_steps actions next_time_steps,
       _experience_to_transitions toy.experience
       = OK (time_steps, actions, next_time_steps)
       /\ actions = [mkTensor [1%nat] [num 4 1]]%list
       /\ squeezed_time_step toy.experience time_steps.
Proof.
  assert (H2 : experience_window 2 toy.experience).
  { repeat split; repeat constructor; now exists 1%nat, []. }
  assert (H3 : experience_window 3 toy.long_experience).
  { repeat split; repeat constructor; now exists 1%nat, []. }
  split; [ exact H2 | ]. split; [ exact H3 | ]. split.
  - apply (proj1 (experience_to_transitions_window toy.long_experience 3 H3)).
    discriminate.
  - destruct (proj2 (experience_to_transitions_window toy.experience 2 H2) eq_refl)
      as (ts & acts & nts & Hrun & Hts & _ & _).
    exists ts, acts, nts. split; [ exact Hrun | ]. split; [ | exact Hts ].
    vm_compute in Hrun. now injection Hrun as _ <- _.
Defined.

(** ** The training step *)

Lemma for_each_summaries {A} (f : A -> M unit) (l : list A) :
  (forall x w, exists w', f x w = OK (tt, w') /\ only_summaries w w') ->
  forall w, exists w', for_each f l w = OK (tt, w') /\ only_summaries w w'.
Proof.
  intros Hf. induction l as [| x l IH]; intros w; simpl.
  - exists w. split; [ reflexivity | repeat split ].
  - unfold bind. destruct (Hf x w) as (w1 & Hw1 & F1). rewrite Hw1.
    destruct (IH w1) as (w2 & Hw2 & F2). exists w2. split; [ assumption | ].
    destruct F1 as (? & ? & ? & ?), F2 as (? & ? & ? & ?).
    repeat split; congruence.
Qed.

Lemma clip_and_summarize_gradients_returns
    (clip_gradient_norms : Num -> list Tensor -> list Tensor)
    (grads vars : list Tensor) (w : World) :
  exists w',
    clip_and_summarize_gradients clip_gradient_norms grads vars w
    = OK (transformed_gradients clip_gradient_norms (self w) grads, w')
    /\ only_summaries w w'.
Proof.
  unfold clip_and_summarize_gradients, bind, get_self, transformed_gradients.
  destruct (_summarize_grads_and_vars (self w)).
  - set (g := match _gradient_clipping (self w) with
              | Some c => clip_gradient_norms c grads
              | None => grads
              end).
    destruct (for_each_summaries
                (fun gv => summary "Gradients/" (constant (fst gv)) ;;
                           summary "Variables/" (constant (snd gv)))
                (combine g vars)) with (w := w) as (w' & Hw' & Hframe).
    { intros x w0. eexists. split; [ reflexivity | repeat split ]. }
    unfold bind in Hw'. rewrite Hw'. exists w'. split; [ reflexivity | assumption ].
  - exists w. split; [ reflexivity | repeat split ].
Qed.

Lemma train_op_runs
    (tf_gradients : (list Tensor -> Num) -> list Tensor -> list Tensor)
    (clip_gradient_norms : Num -> list Tensor -> list Tensor)
    (total_loss : Graph Num) (optimizer : Optimizer) (global_step : bool)
    (scope : Scope) (w0 : World) :
  exists op : Op,
    create_train_op tf_gradients total_loss (Some optimizer) global_step
      (clip_and_summarize_gradients clip_gradient_norms) scope w0 = OK (op, w0)
    /\ forall (s0 : Variables) (w : World),
         global_variables scope (variables w) = global_variables scope s0 ->
         exists w',
           op s0 w = OK (tt, w')
           /\ self w' = self w
           /\ counter w' = counter w
           /\ train_steps w'
              = (if global_step then S (train_steps w) else train_steps w)
           /\ variables w'
              = set_variables scope
                  (optimizer_step tf_gradients clip_gradient_norms (self w)
                     total_loss optimizer scope s0)
                  (variables w).
Proof.
  eexists. split; [ reflexivity | ].
  intros s0 w Hscope. unfold bind.
  match goal with
  | |- context [clip_and_summarize_gradients _ ?g ?xs w] =>
      destruct (clip_and_summarize_gradients_returns clip_gradient_norms g xs w)
        as (w1 & Hw1 & (Hself & Hvars & Hcount & Hsteps))
  end.
  rewrite Hw1. unfold get_variables, put_variables, increment_train_steps, ret.
  simpl. rewrite Hvars, Hscope.
  destruct global_step; eexists; (split; [ reflexivity | ]); simpl;
    rewrite Hself; repeat split; auto.
Qed.

Lemma train_inversion
    (tf_gradients : (list Tensor -> Num) -> list Tensor -> list Tensor)
    (clip_gradient_norms : Num -> list Tensor -> list Tensor)
    (experience : trajectory.Trajectory) (train_step_counter : bool)
    (w : World) (info : LossInfo) (w' : World) :
  _train tf_gradients clip_gradient_norms experience train_step_counter w
  = OK (info, w') ->
  exists time_steps actions next_time_steps crit act w1 w2 critic_optimizer
         actor_optimizer,
    _experience_to_transitions experience = OK (time_steps, actions, next_time_steps)
    /\ critic_loss time_steps actions next_time_steps w = OK (crit, w1)
    /\ actor_loss tf_gradients time_steps w1 = OK (act, w2)
    /\ only_summaries w w1
    /\ only_summaries w w2
    /\ (forall s0 v,
          crit s0 v
          = critic_loss_spec (self w) time_steps actions next_time_steps s0 v)
    /\ (forall s0 v,
          act s0 v = actor_loss_spec tf_gradients (self w) time_steps s0 v)
    /\ _critic_optimizer (self w) = Some critic_optimizer
    /\ _actor_optimizer (self w) = Some actor_optimizer
    /\ info = mkLossInfo (eval act (variables w) + eval crit (variables w)) tt
    /\ self w' = self w
    /\ counter w' = S (counter w)
    /\ train_steps w'
       = (if train_step_counter then S (train_steps w) else train_steps w)
    /\ let s0 := variables w in
       let critic' :=
         optimizer_step tf_gradients clip_gradient_norms (self w) crit
           critic_optimizer CRITIC_NET_SCOPE s0 in
       let actor' :=
         optimizer_step tf_gradients clip_gradient_norms (self w) act
           actor_optimizer ACTOR_NET_SCOPE s0 in
       let stepped :=
         set_variables ACTOR_NET_SCOPE actor'
           (set_variables CRITIC_NET_SCOPE critic' s0) in
       variables w'
       = if (counter w mod _target_update_period (self w) =? 0)%nat then
           set_variables TARGET_ACTOR_NET_SCOPE
             (common_utils.soft_variables_update actor'
                (target_actor_net_variables s0) (_target_update_tau (self w)))
             (set_variables TARGET_CRITIC_NET_SCOPE
                (common_utils.soft_variables_update critic'
                   (target_critic_net_variables s0) (_target_update_tau (self w)))
                stepped)
         else stepped.
Proof.
  unfold _train, bind at 1, lift_result.
  destruct (_experience_to_transitions experience) as [[[ts acts] nts] | err];
    [ | discriminate ].
  unfold bind at 1.
  destruct (critic_loss_returns w ts acts nts) as (crit & w1 & Hcrit & F1 & Scrit).
  rewrite Hcrit. unfold bind at 1.
  destruct F1 as (Hself1 & Hvars1 & Hcount1 & Hsteps1).
  destruct (_actor_net (self w1) ts (_action_spec (self w1))) eqn:Houts.
  { rewrite actor_loss_empty_nest by assumption. discriminate. }
  destruct (actor_loss_returns tf_gradients w1 ts) as (act & w2 & Hact & F2 & Sact).
  { rewrite Houts. discriminate. }
  rewrite Hact. unfold bind at 1, get_self.
  destruct F2 as (Hself2 & Hvars2 & Hcount2 & Hsteps2).
  unfold bind at 1.
  destruct (_critic_optimizer (self w2)) as [opt_c |] eqn:Hoptc; [ | discriminate ].
  destruct (train_op_runs tf_gradients clip_gradient_norms crit opt_c
              train_step_counter CRITIC_NET_SCOPE w2) as (op_c & Hopc & Hrunc).
  rewrite Hopc. unfold bind at 1.
  destruct (_actor_optimizer (self w2)) as [opt_a |] eqn:Hopta; [ | discriminate ].
  destruct (train_op_runs tf_gradients clip_gradient_norms act opt_a
              false ACTOR_NET_SCOPE w2) as (op_a & Hopa & Hruna).
  rewrite Hopa. unfold bind at 1, get_variables. unfold bind at 1.
  destruct (Hrunc (variables w2) w2 eq_refl)
    as (w3 & Hw3 & Hself3 & Hcount3 & Hsteps3 & Hvars3).
  rewrite Hw3. unfold bind at 1.
  destruct (Hruna (variables w2) w3)
    as (w4 & Hw4 & Hself4 & Hcount4 & Hsteps4 & Hvars4).
  { rewrite Hvars3. reflexivity. }
  rewrite Hw4. unfold bind at 1.
  destruct (update_targets_returns (_target_update_tau (self w2))
              (_target_update_period (self w2)) w4)
    as (w5 & Hw5 & Hself5 & Hcount5 & Hsteps5 & Hvars5).
  rewrite Hw5. unfold ret. intros Hret. injection Hret as <- <-.
  exists ts, acts, nts, crit, act, w1, w2, opt_c, opt_a.
  assert (Hs : self w2 = self w) by congruence.
  assert (Hv : variables w2 = variables w) by congruence.
  rewrite Hs, Hv in *.
  repeat split; try congruence.
  - destruct train_step_counter; congruence.
  - cbv zeta. rewrite Hvars5, Hvars4, Hvars3, Hself3.
    replace (counter w4) with (counter w) by congruence.
    destruct (counter w mod _target_update_period (self w) =? 0)%nat; reflexivity.
Qed.

Lemma train_runs
    (tf_gradients : (list Tensor -> Num) -> list Tensor -> list Tensor)
    (clip_gradient_norms : Num -> list Tensor -> list Tensor)
    (experience : trajectory.Trajectory) (train_step_counter : bool) (w : World)
    (time_steps : TimeStep) (actions : list Tensor) (next_time_steps : TimeStep)
    (critic_optimizer actor_optimizer : Optimizer) :
  _experience_to_transitions experience = OK (time_steps, actions, next_time_steps) ->
  _actor_net (self w) time_steps (_action_spec (self w)) <> [] ->
  _critic_optimizer (self w) = Some critic_optimizer ->
  _actor_optimizer (self w) = Some actor_optimizer ->
  exists info w',
    _train tf_gradients clip_gradient_norms experience train_step_counter w
    = OK (info, w').
Proof.
  intros Htrans Hne Hoptc Hopta.
  unfold _train, bind at 1, lift_result. rewrite Htrans. unfold bind at 1.
  destruct (critic_loss_returns w time_steps actions next_time_steps)
    as (crit & w1 & Hcrit & (Hself1 & Hvars1 & _) & _).
  rewrite Hcrit. unfold bind at 1.
  destruct (actor_loss_returns tf_gradients w1 time_steps)
    as (act & w2 & Hact & (Hself2 & Hvars2 & _) & _).
  { now rewrite Hself1. }
  rewrite Hact. unfold bind at 1, get_self. unfold bind at 1.
  rewrite Hself2, Hself1, Hoptc.
  destruct (train_op_runs tf_gradients clip_gradient_norms crit critic_optimizer
              train_step_counter CRITIC_NET_SCOPE w2) as (op_c & Hopc & Hrunc).
  rewrite Hopc. unfold bind at 1. rewrite Hopta.
  destruct (train_op_runs tf_gradients clip_gradient_norms act actor_optimizer
              false ACTOR_NET_SCOPE w2) as (op_a & Hopa & Hruna).
  rewrite Hopa. unfold bind at 1, get_variables. unfold bind at 1.
  destruct (Hrunc (variables w2) w2 eq_refl) as (w3 & Hw3 & _ & _ & _ & Hvars3).
  rewrite Hw3. unfold bind at 1.
  destruct (Hruna (variables w2) w3) as (w4 & Hw4 & _).
  { rewrite Hvars3. reflexivity. }
  rewrite Hw4. unfold bind at 1.
  destruct (update_targets_returns (_target_update_tau (self w))
              (_target_update_period (self w)) w4) as (w5 & Hw5 & _).
  rewrite Hw5. eexists. eexists. reflexivity.
Qed.

(** C8: a training step that completes returns the sum of the actor loss and
    of the critic loss the two loss methods computed in it, at the variables
    the step started from, and no loss detail per sample. *)
Theorem train_returns_sum_of_losses :
  forall (tf_gradients : (list Tensor -> Num) -> list Tensor -> list Tensor)
         (clip_gradient_norms : Num -> list Tensor -> list Tensor)
         (experience : trajectory.Trajectory) (train_step_counter : bool)
         (w : World) (info : LossInfo) (w' : World),
  _train tf_gradients clip_gradient_norms experience train_step_counter w
  = OK (info, w') ->
  exists time_steps actions next_time_steps crit act w1 w2,
    _experience_to_transitions experience = OK (time_steps, actions, next_time_steps)
    /\ critic_loss time_steps actions next_time_steps w = OK (crit, w1)
    /\ actor_loss tf_gradients time_steps w1 = OK (act, w2)
    /\ variables w1 = variables w
    /\ variables w2 = variables w
    /\ loss info = eval act (variables w) + eval crit (variables w)
    /\ extra info = tt.
Proof.
  intros tf_gradients clip_gradient_norms e flag w info w' Hrun.
  destruct (train_inversion _ _ _ _ _ _ _ Hrun)
    as (ts & acts & nts & crit & act & w1 & w2 & opt_c & opt_a
        & Htrans & Hcrit & Hact & F1 & F2 & _ & _ & _ & _ & Hinfo & _).
  exists ts, acts, nts, crit, act, w1, w2.
  destruct F1 as (_ & Hv1 & _), F2 as (_ & Hv2 & _).
  rewrite Hinfo. repeat split; assumption.
Qed.


Lemma toy_transitions :
  _experience_to_transitions toy.experience
  = OK (toy.time_steps, [mkTensor [1%nat] [num 4 1]]%list, toy.next_time_steps).
Proof. vm_compute. reflexivity. Qed.

Lemma train_returns_sum_of_losses_example :
  let w := toy.world (toy.agent toy.critic_net (num 9 10) None 1) 0 in
  exists info w',
    _train toy.central_differences toy.no_clipping toy.experience true w
    = OK (info, w')
    /\ loss info = num 91 10.
Proof.
  intros w.
  destruct (train_runs toy.central_differences toy.no_clipping toy.experience true w
              _ _ _ (toy.sgd (num 1 10)) (toy.sgd (num 1 10)) toy_transitions)
    as (info & w' & Hrun); try reflexivity; try discriminate.
  exists info, w'. split; [ exact Hrun | ].
  destruct (train_returns_sum_of_losses _ _ _ _ _ _ _ Hrun)
    as (ts & acts & nts & crit & act & w1 & w2
        & Htrans & Hcrit & Hact & Hv1 & _ & Hloss & _).
  rewrite toy_transitions in Htrans. injection Htrans as <- <- <-.
  destruct (critic_loss_returns w toy.time_steps [mkTensor [1%nat] [num 4 1]]
              toy.next_time_steps) as (crit' & w1' & Hcrit' & F1 & Scrit).
  rewrite Hcrit in Hcrit'. injection Hcrit' as <- <-.
  destruct (actor_loss_returns toy.central_differences w1 toy.time_steps)
    as (act' & w2' & Hact' & _ & Sact).
  { destruct F1 as (-> & _). discriminate. }
  rewrite Hact in Hact'. injection Hact' as <- <-.
  rewrite Hloss. unfold eval. rewrite Scrit, Sact.
  destruct F1 as (-> & _).
  apply Qc_is_canon. vm_compute. reflexivity.
Defined.

Lemma central_differences_ext (f g : list Tensor -> Num) (xs : list Tensor) :
  (forall x, f x = g x) ->
  toy.central_differences f xs = toy.central_differences g xs.
Proof.
  intros Hfg. unfold toy.central_differences.
  apply map_ext. intros i. f_equal. apply map_ext. intros j.
  now rewrite !Hfg.
Qed.



(** * More properties of the agent *)

(** ** The value of the actor loss *)

Lemma mean_squared_error_nonneg (labels predictions : Tensor) :
  0 <= tf.mean_squared_error labels predictions.
Proof.
  unfold tf.mean_squared_error. apply reduce_mean_nonneg, Forall_map2.
  intros l p. apply Qcsquare_nonneg.
Qed.

Lemma actor_loss_spec_nonneg
    (tf_gradients : (list Tensor -> Num) -> list Tensor -> list Tensor)
    (agent : DdpgAgent) (time_steps : TimeStep) (s0 v : Variables) :
  0 <= actor_loss_spec tf_gradients agent time_steps s0 v.
Proof.
  unfold actor_loss_spec. apply reduce_sum_nonneg, Forall_forall.
  intros x Hx. apply in_map_iff in Hx as (i & <- & _).
  apply mean_squared_error_nonneg.
Qed.

(** X1: the actor loss is never negative, at any run and at any point of
    differentiation, whatever the networks, the gradients and the clipping
    are. *)
Theorem actor_loss_never_negative :
  forall (tf_gradients : (list Tensor -> Num) -> list Tensor -> list Tensor)
         (w : World) (time_steps : TimeStep),
  _actor_net (self w) time_steps (_action_spec (self w)) <> [] ->
  exists (act : Graph Num) (w' : World),
    actor_loss tf_gradients time_steps w = OK (act, w')
    /\ forall s0 v, 0 <= act s0 v.
Proof.
  intros tf_gradients w ts Hne.
  destruct (actor_loss_returns tf_gradients w ts Hne) as (act & w' & Hrun & _ & Hspec).
  exists act, w'. split; [ exact Hrun | ].
  intros s0 v. rewrite Hspec. apply actor_loss_spec_nonneg.
Qed.

Lemma actor_loss_never_negative_example :
  let w := toy.world (toy.agent toy.critic_net (num 9 10) (Some (num 1 2)) 1) 0 in
  _actor_net (self w) toy.time_steps (_action_spec (self w)) <> []
  /\ exists act w',
       actor_loss toy.central_differences toy.time_steps w = OK (act, w')
       /\ 0 <= eval act toy.vars.
Proof.
  intros w.
  assert (Hne : _actor_net (self w) toy.time_steps (_action_spec (self w)) <> [])
    by discriminate.
  split; [ exact Hne | ].
  destruct (actor_loss_never_negative toy.central_differences w toy.time_steps Hne)
    as (act & w' & Hrun & Hpos).
  exists act, w'. split; [ exact Hrun | apply Hpos ].
Defined.

Lemma squared_difference_shifted (dd ad : list Num) :
  List.length dd = List.length ad ->
  map2 tf.squared_difference (map2 Qcplus dd ad) ad
  = List.map (fun x => x * x) dd.
Proof.
  revert ad. induction dd as [| d dd IH]; intros [| a ad] Hlen; simpl in *;
    try discriminate; [ reflexivity | ].
  rewrite IH by lia. f_equal. unfold tf.squared_difference. ring.
Qed.

Lemma mean_squared_error_shifted (d a : Tensor) :
  List.length (data d) = List.length (data a) ->
  tf.mean_squared_error (tf.add d a) a = mean_square d.
Proof.
  intros Hlen. unfold tf.mean_squared_error, mean_square, tf.add, tf.zip_with.
  simpl. now rewrite squared_difference_shifted.
Qed.

Lemma map_seq_nth {A B C} (h : A -> B -> C) (d1 : A) (d2 : B) (l1 : list A) :
  forall l2 : list B,
  List.length l1 = List.length l2 ->
  List.map (fun i => h (nth i l1 d1) (nth i l2 d2)) (seq 0 (List.length l2))
  = map2 h l1 l2.
Proof.
  induction l1 as [| x l1 IH]; intros [| y l2] Hlen; simpl in *;
    try discriminate; [ reflexivity | ].
  f_equal. rewrite <- seq_shift, List.map_map. apply IH. lia.
Qed.

Lemma clip_dqda_length (agent : DdpgAgent) (dqda : Tensor) :
  List.length (data (clip_dqda agent dqda)) = List.length (data dqda).
Proof.
  unfold clip_dqda. destruct (_dqda_clipping agent); [ | reflexivity ].
  unfold tf.clip_by_value, tf.map. simpl. apply length_map.
Qed.

(** X2: when every gradient has as many entries as the component of the
    action it belongs to, the value of the actor loss in a run is the sum,
    over the components, of the mean of the squares of the clipped
    gradient: the actions themselves cancel. *)
Theorem actor_loss_is_mean_squared_gradient :
  forall (tf_gradients : (list Tensor -> Num) -> list Tensor -> list Tensor)
         (w : World) (time_steps : TimeStep),
  _actor_net (self w) time_steps (_action_spec (self w)) <> [] ->
  exists (act : Graph Num) (w' : World),
    actor_loss tf_gradients time_steps w = OK (act, w')
    /\ forall s0 : Variables,
         Forall2 (fun d a => List.length (data d) = List.length (data a))
           (action_gradient tf_gradients (self w) time_steps s0)
           (actions_at (self w) ACTOR_NET_SCOPE time_steps s0) ->
         eval act s0
         = tf.reduce_sum
             (List.map (fun d => mean_square (clip_dqda (self w) d))
                (action_gradient tf_gradients (self w) time_steps s0)).
Proof.
  intros tf_gradients w ts Hne.
  destruct (actor_loss_returns tf_gradients w ts Hne) as (act & w' & Hrun & _ & Hspec).
  exists act, w'. split; [ exact Hrun | ].
  intros s0 Hshape. unfold eval. rewrite Hspec. unfold actor_loss_spec.
  fold (action_gradient tf_gradients (self w) ts s0).
  set (dqda := action_gradient tf_gradients (self w) ts s0) in *.
  set (acts := actions_at (self w) ACTOR_NET_SCOPE ts s0) in *.
  f_equal.
  rewrite (map_seq_nth
             (fun d a => tf.mean_squared_error (tf.add (clip_dqda (self w) d) a) a)).
  - induction Hshape as [| d a dqda' acts' Hlen _ IH]; simpl; [ reflexivity | ].
    rewrite IH. f_equal. apply mean_squared_error_shifted.
    now rewrite clip_dqda_length.
  - eapply Forall2_length. exact Hshape.
Qed.

Lemma actor_loss_is_mean_squared_gradient_example :
  let w := toy.world (toy.agent toy.critic_net (num 9 10) (Some (num 1 2)) 1) 0 in
  _actor_net (self w) toy.time_steps (_action_spec (self w)) <> []
  /\ exists act w',
       actor_loss toy.central_differences toy.time_steps w = OK (act, w')
       /\ eval act toy.vars = num 1 4.
Proof.
  intros w.
  assert (Hne : _actor_net (self w) toy.time_steps (_action_spec (self w)) <> [])
    by discriminate.
  split; [ exact Hne | ].
  destruct (actor_loss_is_mean_squared_gradient toy.central_differences w
              toy.time_steps Hne) as (act & w' & Hrun & Hvalue).
  exists act, w'. split; [ exact Hrun | ].
  rewrite Hvalue.
  - apply Qc_is_canon. vm_compute. reflexivity.
  - repeat constructor.
Defined.

Lemma squared_difference_unshifted (dd ad : list Num) :
  Forall (fun x => x = 0)
    (map2 tf.squared_difference (map2 Qcplus (List.map (fun _ => 0) dd) ad) ad).
Proof.
  revert ad. induction dd as [| d dd IH]; intros [| a ad]; simpl;
    try constructor; [ | apply IH ].
  unfold tf.squared_difference. ring.
Qed.

Lemma reduce_mean_zeros (xs : list Num) :
  Forall (fun x => x = 0) xs -> tf.reduce_mean xs = 0.
Proof.
  intros Hxs. unfold tf.reduce_mean.
  assert (Hsum : tf.reduce_sum xs = 0).
  { induction Hxs as [| x xs -> _ IH]; simpl; [ reflexivity | ].
    rewrite IH. ring. }
  rewrite Hsum. unfold Qcdiv. ring.
Qed.

Lemma reduce_sum_zeros (xs : list Num) :
  Forall (fun x => x = 0) xs -> tf.reduce_sum xs = 0.
Proof.
  induction 1 as [| x xs -> _ IH]; simpl; [ reflexivity | ].
  rewrite IH. ring.
Qed.

(** X3: for every agent configured with [dqda_clipping = 0], every critic
    and every batch, the value of the actor loss in a run is 0: the bound 0
    clips every action gradient away. *)
Theorem actor_loss_vanishes_with_zero_clipping :
  forall (tf_gradients : (list Tensor -> Num) -> list Tensor -> list Tensor)
         (w : World) (time_steps : TimeStep),
  _actor_net (self w) time_steps (_action_spec (self w)) <> [] ->
  _dqda_clipping (self w) = Some 0 ->
  exists (act : Graph Num) (w' : World),
    actor_loss tf_gradients time_steps w = OK (act, w')
    /\ forall s0 : Variables, eval act s0 = 0.
Proof.
  intros tf_gradients w ts Hne Hclip.
  destruct (actor_loss_returns tf_gradients w ts Hne) as (act & w' & Hrun & _ & Hspec).
  exists act, w'. split; [ exact Hrun | ].
  intros s0. unfold eval. rewrite Hspec. unfold actor_loss_spec.
  apply reduce_sum_zeros, Forall_forall.
  intros x Hx. apply in_map_iff in Hx as (i & <- & _).
  unfold clip_dqda. rewrite Hclip, clip_by_value_zero.
  unfold tf.mean_squared_error, tf.add, tf.zip_with, tf.map. simpl.
  apply reduce_mean_zeros, squared_difference_unshifted.
Qed.

Lemma actor_loss_vanishes_example :
  let w := toy.world (toy.agent toy.critic_net (num 9 10) (Some 0) 1) 0 in
  _actor_net (self w) toy.time_steps (_action_spec (self w)) <> []
  /\ _dqda_clipping (self w) = Some 0
  /\ exists act w',
       actor_loss toy.central_differences toy.time_steps w = OK (act, w')
       /\ eval act toy.vars = 0.
Proof.
  intros w.
  assert (Hne : _actor_net (self w) toy.time_steps (_action_spec (self w)) <> [])
    by discriminate.
  split; [ exact Hne | ]. split; [ reflexivity | ].
  destruct (actor_loss_vanishes_with_zero_clipping toy.central_differences w
              toy.time_steps Hne eq_refl) as (act & w' & Hrun & Hzero).
  exists act, w'. split; [ exact Hrun | apply Hzero ].
Defined.

(** ** What the losses read *)

(** X4: the actor loss reads the online actor and the online critic only:
    runs that agree on them give it the same value, whatever the target
    networks hold; and it moves with the point of differentiation through
    the online actor alone, the critic and the action gradient being
    frozen at the run. *)
Theorem actor_loss_reads_online_networks_only :
  forall (tf_gradients : (list Tensor -> Num) -> list Tensor -> list Tensor)
         (w : World) (time_steps : TimeStep),
  _actor_net (self w) time_steps (_action_spec (self w)) <> [] ->
  exists (act : Graph Num) (w' : World),
    actor_loss tf_gradients time_steps w = OK (act, w')
    /\ forall s0 s0' v v',
         actor_net_variables s0 = actor_net_variables s0' ->
         critic_net_variables s0 = critic_net_variables s0' ->
         actor_net_variables v = actor_net_variables v' ->
         act s0 v = act s0' v'.
Proof.
  intros tf_gradients w ts Hne.
  destruct (actor_loss_returns tf_gradients w ts Hne) as (act & w' & Hrun & _ & Hspec).
  exists act, w'. split; [ exact Hrun | ].
  intros s0 s0' v v' Ha Hc Hv. rewrite !Hspec.
  unfold actor_loss_spec, actions_at, q_values_at. simpl.
  now rewrite Ha, Hc, Hv.
Qed.

Lemma actor_loss_reads_example :
  let w := toy.world (toy.agent toy.critic_net (num 9 10) None 1) 0 in
  _actor_net (self w) toy.time_steps (_action_spec (self w)) <> []
  /\ exists act w',
       actor_loss toy.central_differences toy.time_steps w = OK (act, w')
       /\ eval act toy.vars_with_untrained = act toy.vars toy.vars_with_untrained
       /\ act toy.vars toy.vars_with_untrained = eval act toy.vars.
Proof.
  intros w.
  assert (Hne : _actor_net (self w) toy.time_steps (_action_spec (self w)) <> [])
    by discriminate.
  split; [ exact Hne | ].
  destruct (actor_loss_reads_online_networks_only toy.central_differences w
              toy.time_steps Hne) as (act & w' & Hrun & Hreads).
  exists act, w'. split; [ exact Hrun | ].
  destruct (actor_loss_returns toy.central_differences w toy.time_steps Hne)
    as (act' & w'' & Hrun' & _ & Hspec).
  rewrite Hrun in Hrun'. injection Hrun' as <- <-.
  unfold eval. split.
  - rewrite !Hspec. apply Qc_is_canon. vm_compute. reflexivity.
  - apply Hreads; reflexivity.
Defined.

(** X5: the critic loss never reads the online actor: runs that agree on
    the two target networks, differentiated at points that agree on the
    online critic, give it the same value. *)
Theorem critic_loss_ignores_online_actor :
  forall (w : World) (time_steps : TimeStep) (actions : list Tensor)
         (next_time_steps : TimeStep),
  exists (crit : Graph Num) (w' : World),
    critic_loss time_steps actions next_time_steps w = OK (crit, w')
    /\ forall s0 s0' v v',
         target_actor_net_variables s0 = target_actor_net_variables s0' ->
         target_critic_net_variables s0 = target_critic_net_variables s0' ->
         critic_net_variables v = critic_net_variables v' ->
         crit s0 v = crit s0' v'.
Proof.
  intros w ts actions nts.
  destruct (critic_loss_returns w ts actions nts) as (crit & w' & Hrun & _ & Hspec).
  exists crit, w'. split; [ exact Hrun | ].
  intros s0 s0' v v' Ha Hc Hv. rewrite !Hspec.
  unfold critic_loss_spec, actions_at, q_values_at. simpl.
  now rewrite Ha, Hc, Hv.
Qed.

Lemma critic_loss_ignores_example :
  let w := toy.world (toy.agent toy.critic_net (num 9 10) None 1) 0 in
  let other :=
    mkVariables [toy.var (num 100 1)] [toy.var 1] [toy.var (num 2 1)]
      [toy.var (num 7 1)] in
  exists crit w',
    critic_loss toy.time_steps [mkTensor [1%nat] [num 4 1]] toy.next_time_steps w
    = OK (crit, w')
    /\ eval crit other = eval crit toy.vars.
Proof.
  intros w other.
  destruct (critic_loss_ignores_online_actor w toy.time_steps
              [mkTensor [1%nat] [num 4 1]] toy.next_time_steps)
    as (crit & w' & Hrun & Hreads).
  exists crit, w'. split; [ exact Hrun | ].
  apply Hreads; reflexivity.
Defined.

Lemma td_target_terminal (c g : Num) (r d q : list Num) :
  Forall (fun x => x = 0) d ->
  List.length d = List.length r -> List.length q = List.length r ->
  td_target_spec c g r d q = List.map (Qcmult c) r.
Proof.
  intros Hd. revert r q.
  induction Hd as [| x d -> _ IH]; intros [| y r] [| z q] Hdr Hqr; simpl in *;
    try discriminate; [ reflexivity | ].
  rewrite IH by lia. f_equal. ring.
Qed.

(** X6: on transitions that end the episode, where the discount of the next
    time steps is 0, the TD target is the scaled reward alone: the critic
    loss is the loss between [reward_scale_factor * next_reward] and the
    Q-values of the online critic, whatever the target networks hold.  The
    discount and the Q-values of the target critic have one entry per
    reward. *)
Theorem critic_loss_at_terminal_transitions :
  forall (w : World) (time_steps : TimeStep) (actions : list Tensor)
         (next_time_steps : TimeStep),
  Forall (fun d => d = 0) (data (discount next_time_steps)) ->
  List.length (data (discount next_time_steps))
  = List.length (data (reward next_time_steps)) ->
  (forall s0,
     List.length
       (data (q_values_at (self w) TARGET_CRITIC_NET_SCOPE next_time_steps
                (actions_at (self w) TARGET_ACTOR_NET_SCOPE next_time_steps s0) s0))
     = List.length (data (reward next_time_steps))) ->
  exists (crit : Graph Num) (w' : World),
    critic_loss time_steps actions next_time_steps w = OK (crit, w')
    /\ forall s0 v,
         crit s0 v
         = _td_errors_loss_fn (self w)
             (tf.scale (_reward_scale_factor (self w)) (reward next_time_steps))
             (q_values_at (self w) CRITIC_NET_SCOPE time_steps actions v).
Proof.
  intros w ts actions nts Hzero Hd Hq.
  destruct (critic_loss_returns w ts actions nts) as (crit & w' & Hrun & _ & Hspec).
  exists crit, w'. split; [ exact Hrun | ].
  intros s0 v. rewrite Hspec. unfold critic_loss_spec.
  rewrite td_target_terminal by auto. reflexivity.
Qed.

Lemma critic_loss_at_terminal_example :
  let w := toy.world (toy.agent toy.critic_net (num 9 10) None 1) 0 in
  exists crit w',
    critic_loss toy.time_steps [mkTensor [1%nat] [num 4 1]] toy.last_time_steps w
    = OK (crit, w')
    /\ eval crit toy.vars
       = tf.huber_loss (mkTensor [1%nat] [1]) (mkTensor [1%nat] [num 8 1]).
Proof.
  intros w.
  destruct (critic_loss_at_terminal_transitions w toy.time_steps
              [mkTensor [1%nat] [num 4 1]] toy.last_time_steps)
    as (crit & w' & Hrun & Hvalue).
  - repeat constructor.
  - reflexivity.
  - intros s0. reflexivity.
  - exists crit, w'. split; [ exact Hrun | ].
    unfold eval. rewrite Hvalue. apply Qc_is_canon. vm_compute. reflexivity.
Defined.

(** ** The training step: counters, variables and failures *)

(** X7: a training step that completes leaves the attributes of the agent
    as they were, and it increments the step counter of the caller by one
    when the caller passes one and not at all otherwise: of the two train
    ops, the critic's alone is given the counter. *)
Theorem train_counts_one_step :
  forall (tf_gradients : (list Tensor -> Num) -> list Tensor -> list Tensor)
         (clip_gradient_norms : Num -> list Tensor -> list Tensor)
         (experience : trajectory.Trajectory) (train_step_counter : bool)
         (w : World) (info : LossInfo) (w' : World),
  _train tf_gradients clip_gradient_norms experience train_step_counter w
  = OK (info, w') ->
  self w' = self w
  /\ train_steps w'
     = (if train_step_counter then S (train_steps w) else train_steps w).
Proof.
  intros tf_gradients clip_gradient_norms e flag w info w' Hrun.
  destruct (train_inversion _ _ _ _ _ _ _ Hrun)
    as (ts & acts & nts & crit & act & w1 & w2 & opt_c & opt_a
        & _ & _ & _ & _ & _ & _ & _ & _ & _ & _ & Hself & _ & Hsteps & _).
  now split.
Qed.

Lemma toy_train_runs (train_step_counter : bool) (a : DdpgAgent) (s : Variables) :
  _actor_net a = toy.actor_net ->
  _critic_optimizer a = Some (toy.sgd (num 1 10)) ->
  _actor_optimizer a = Some (toy.sgd (num 1 10)) ->
  exists info w',
    _train toy.central_differences toy.no_clipping toy.experience
      train_step_counter (mkWorld a s 0 0 []) = OK (info, w').
Proof.
  intros Hactor Hoptc Hopta.
  apply (train_runs toy.central_differences toy.no_clipping toy.experience
           train_step_counter (mkWorld a s 0 0 []) _ _ _
           (toy.sgd (num 1 10)) (toy.sgd (num 1 10)) toy_transitions);
    simpl; try assumption.
  rewrite Hactor. discriminate.
Qed.

Lemma train_counts_one_step_example :
  let a := toy.agent toy.critic_net (num 9 10) None 1 in
  (exists info w',
     _train toy.central_differences toy.no_clipping toy.experience true
       (mkWorld a toy.vars 0 0 []) = OK (info, w')
     /\ train_steps w' = 1%nat)
  /\ (exists info w',
        _train toy.central_differences toy.no_clipping toy.experience false
          (mkWorld a toy.vars 0 0 []) = OK (info, w')
        /\ train_steps w' = 0%nat).
Proof.
  intros a. split.
  - destruct (toy_train_runs true a toy.vars) as (info & w' & Hrun);
      try reflexivity.
    exists info, w'. split; [ exact Hrun | ].
    apply (proj2 (train_counts_one_step _ _ _ _ _ _ _ Hrun)).
  - destruct (toy_train_runs false a toy.vars) as (info & w' & Hrun);
      try reflexivity.
    exists info, w'. split; [ exact Hrun | ].
    apply (proj2 (train_counts_one_step _ _ _ _ _ _ _ Hrun)).
Defined.








(** X10: with the Huber loss that [__init__] takes by default, a training
    step that completes never returns a negative loss. *)
Theorem train_loss_not_negative :
  forall (tf_gradients : (list Tensor -> Num) -> list Tensor -> list Tensor)
         (clip_gradient_norms : Num -> list Tensor -> list Tensor)
         (experience : trajectory.Trajectory) (train_step_counter : bool)
         (w : World) (info : LossInfo) (w' : World),
  _td_errors_loss_fn (self w) = tf.huber_loss ->
  _train tf_gradients clip_gradient_norms experience train_step_counter w
  = OK (info, w') ->
  0 <= loss info.
Proof.
  intros tf_gradients clip_gradient_norms e flag w info w' Hhuber Hrun.
  destruct (train_inversion _ _ _ _ _ _ _ Hrun)
    as (ts & acts & nts & crit & act & w1 & w2 & opt_c & opt_a
        & _ & _ & _ & _ & _ & Scrit & Sact & _ & _ & Hinfo & _).
  rewrite Hinfo. simpl. unfold eval. rewrite Scrit, Sact.
  apply Qcplus_nonneg.
  - apply actor_loss_spec_nonneg.
  - unfold critic_loss_spec. rewrite Hhuber. apply huber_loss_nonneg.
Qed.

Lemma train_loss_not_negative_example :
  let a := toy.agent toy.critic_net (num 9 10) None 1 in
  _td_errors_loss_fn a = tf.huber_loss
  /\ exists info w',
       _train toy.central_differences toy.no_clipping toy.experience true
         (mkWorld a toy.vars 0 0 []) = OK (info, w')
       /\ 0 <= loss info.
Proof.
  intros a. split; [ reflexivity | ].
  destruct (toy_train_runs true a toy.vars) as (info & w' & Hrun); try reflexivity.
  exists info, w'. split; [ exact Hrun | ].
  exact (train_loss_not_negative _ _ _ _ (mkWorld a toy.vars 0 0 []) _ _
           eq_refl Hrun).
Defined.

(** X11: with the update of the targets that [__init__] has by default,
    [target_update_tau = 1.0] and [target_update_period = 1], every training
    step that completes ends with target networks that hold the values the
    online networks have after the two optimizer steps; the optimizers keep
    the shapes of the variables. *)
Theorem train_with_default_update_copies_online :
  forall (tf_gradients : (list Tensor -> Num) -> list Tensor -> list Tensor)
         (clip_gradient_norms : Num -> list Tensor -> list Tensor)
         (experience : trajectory.Trajectory) (train_step_counter : bool)
         (w : World) (info : LossInfo) (w' : World),
  _target_update_tau (self w) = 1 ->
  _target_update_period (self w) = 1%nat ->
  _train tf_gradients clip_gradient_norms experience train_step_counter w
  = OK (info, w') ->
  Forall2 same_shape (critic_net_variables (variables w'))
    (target_critic_net_variables (variables w)) ->
  Forall2 same_shape (actor_net_variables (variables w'))
    (target_actor_net_variables (variables w)) ->
  values (target_critic_net_variables (variables w'))
  = values (critic_net_variables (variables w'))
  /\ values (target_actor_net_variables (variables w'))
     = values (actor_net_variables (variables w')).
Proof.
  intros tf_gradients clip_gradient_norms e flag w info w' Htau Hperiod Hrun.
  destruct (train_inversion _ _ _ _ _ _ _ Hrun)
    as (ts & acts & nts & crit & act & w1 & w2 & opt_c & opt_a
        & _ & _ & _ & _ & _ & _ & _ & _ & _ & _ & _ & _ & _ & Hvars).
  cbv zeta in Hvars. rewrite Hperiod, Htau, Nat.mod_1_r in Hvars.
  rewrite Hvars. simpl. intros Hc Ha.
  split; now apply soft_variables_update_hard.
Qed.

Lemma train_with_default_update_example :
  let w := mkWorld toy.default_agent toy.vars 0 0 [] in
  exists info w',
    _train toy.central_differences toy.no_clipping toy.experience true w
    = OK (info, w')
    /\ values (target_critic_net_variables (variables w'))
       = values (critic_net_variables (variables w'))
    /\ values (target_actor_net_variables (variables w'))
       = values (actor_net_variables (variables w')).
Proof.
  intros w.
  destruct (toy_train_runs true toy.default_agent toy.vars) as (info & w' & Hrun);
    try reflexivity.
  exists info, w'. split; [ exact Hrun | ].
  apply (train_with_default_update_copies_online _ _ _ _ w _ _ eq_refl eq_refl Hrun).
  - destruct (train_inversion _ _ _ _ _ _ _ Hrun)
      as (ts & acts & nts & crit & act & w1 & w2 & opt_c & opt_a
          & _ & _ & _ & _ & _ & _ & _ & Hoptc & _ & _ & _ & _ & _ & Hvars).
    injection Hoptc as <-. cbv zeta in Hvars. rewrite Hvars.
    repeat constructor.
  - destruct (train_inversion _ _ _ _ _ _ _ Hrun)
      as (ts & acts & nts & crit & act & w1 & w2 & opt_c & opt_a
          & _ & _ & _ & _ & _ & _ & _ & _ & Hopta & _ & _ & _ & _ & Hvars).
    injection Hopta as <-. cbv zeta in Hvars. rewrite Hvars.
    repeat constructor.
Defined.

(** X12: the diagnostics have no effect on training.  With gradients that
    depend on the values of the differentiated function only, a training
    step that completes also completes for the agent constructed with any
    other [debug_summaries] and [summarize_grads_and_vars], with the same
    loss, the same variables and the same counters. *)
Theorem train_ignores_summary_flags :
  forall (tf_gradients : (list Tensor -> Num) -> list Tensor -> list Tensor)
         (clip_gradient_norms : Num -> list Tensor -> list Tensor)
         (experience : trajectory.Trajectory) (train_step_counter : bool)
         (w : World) (debug_summaries summarize_grads_and_vars : bool)
         (info : LossInfo) (w' : World),
  extensional tf_gradients ->
  _train tf_gradients clip_gradient_norms experience train_step_counter w
  = OK (info, w') ->
  exists info2 w2',
    _train tf_gradients clip_gradient_norms experience train_step_counter
      (with_agent
         (with_summaries (self w) debug_summaries summarize_grads_and_vars) w)
    = OK (info2, w2')
    /\ loss info2 = loss info
    /\ variables w2' = variables w'
    /\ counter w2' = counter w'
    /\ train_steps w2' = train_steps w'.
Proof.
  intros tf_gradients clip_gradient_norms e flag w dbg smz info w' Hext Hrun.
  destruct (train_inversion _ _ _ _ _ _ _ Hrun)
    as (ts & acts & nts & crit & act & w1 & w2 & opt_c & opt_a
        & Htrans & _ & Hact & (Hself1 & _) & _ & Scrit & Sact & Hoptc & Hopta
        & Hinfo & _ & Hcount & Hsteps & Hvars).
  assert (Hne : _actor_net (self w) ts (_action_spec (self w)) <> []).
  { intros Hnil.
    rewrite (actor_loss_empty_nest tf_gradients w1 ts) in Hact;
      [ discriminate | now rewrite Hself1 ]. }
  set (w0 := with_agent (with_summaries (self w) dbg smz) w).
  destruct (train_runs tf_gradients clip_gradient_norms e flag w0 ts acts nts
              opt_c opt_a Htrans) as (info2 & w2' & Hrun2); try assumption.
  exists info2, w2'. split; [ exact Hrun2 | ].
  destruct (train_inversion _ _ _ _ _ _ _ Hrun2)
    as (ts' & acts' & nts' & crit' & act' & w1' & w2'' & opt_c' & opt_a'
        & Htrans' & _ & _ & _ & _ & Scrit' & Sact' & Hoptc' & Hopta'
        & Hinfo' & _ & Hcount' & Hsteps' & Hvars').
  rewrite Htrans in Htrans'. injection Htrans' as <- <- <-.
  simpl in Hoptc', Hopta'. rewrite Hoptc in Hoptc'. rewrite Hopta in Hopta'.
  injection Hoptc' as <-. injection Hopta' as <-.
  assert (Ecrit : forall s0 v, crit' s0 v = crit s0 v).
  { intros s0 v. now rewrite Scrit', Scrit. }
  assert (Eact : forall s0 v, act' s0 v = act s0 v).
  { intros s0 v. now rewrite Sact', Sact. }
  assert (Estep_c :
            optimizer_step tf_gradients clip_gradient_norms (self w0) crit' opt_c
              CRITIC_NET_SCOPE (variables w0)
            = optimizer_step tf_gradients clip_gradient_norms (self w) crit opt_c
                CRITIC_NET_SCOPE (variables w)).
  { unfold optimizer_step. simpl.
    rewrite (Hext _ _ _ (fun x => Ecrit _ _)). reflexivity. }
  assert (Estep_a :
            optimizer_step tf_gradients clip_gradient_norms (self w0) act' opt_a
              ACTOR_NET_SCOPE (variables w0)
            = optimizer_step tf_gradients clip_gradient_norms (self w) act opt_a
                ACTOR_NET_SCOPE (variables w)).
  { unfold optimizer_step. simpl.
    rewrite (Hext _ _ _ (fun x => Eact _ _)). reflexivity. }
  cbv zeta in Hvars, Hvars'. rewrite Estep_c, Estep_a in Hvars'.
  repeat split.
  - rewrite Hinfo', Hinfo. simpl. unfold eval. now rewrite Ecrit, Eact.
  - now rewrite Hvars', Hvars.
  - now rewrite Hcount', Hcount.
  - now rewrite Hsteps', Hsteps.
Qed.

Lemma train_ignores_summary_flags_example :
  let w := mkWorld (toy.agent toy.critic_net (num 9 10) None 1) toy.vars 0 0 [] in
  extensional toy.central_differences
  /\ exists info w' info2 w2',
       _train toy.central_differences toy.no_clipping toy.experience true w
       = OK (info, w')
       /\ _train toy.central_differences toy.no_clipping toy.experience true
            (with_agent (with_summaries (self w) true true) w) = OK (info2, w2')
       /\ loss info2 = loss info
       /\ variables w2' = variables w'.
Proof.
  intros w.
  assert (Hext : extensional toy.central_differences).
  { intros f g xs Hfg. now apply central_differences_ext. }
  split; [ exact Hext | ].
  destruct (toy_train_runs true (self w) toy.vars) as (info & w' & Hrun);
    try reflexivity.
  destruct (train_ignores_summary_flags _ _ _ _ w true true _ _ Hext Hrun)
    as (info2 & w2' & Hrun2 & Hloss & Hvars & _).
  exists info, w', info2, w2'. repeat split; assumption.
Defined.

(** ** More on the soft update of the targets *)




Lemma Qcmax_le_l (x y : Num) : x <= Qcmax x y.
Proof.
  unfold Qcmax. destruct (Qcleb x y) eqn:E.
  - now apply Qcleb_le.
  - apply Qcle_refl.
Qed.

Lemma blend_between (tau t s : Num) :
  0 <= tau -> tau <= 1 -> between ((1 - tau) * t + tau * s) t s.
Proof.
  intros H0 H1.
  assert (H1' : 0 <= 1 - tau).
  { unfold Qcminus. now rewrite <- Qcle_minus_iff. }
  unfold between, Qcmin, Qcmax. destruct (Qcleb t s) eqn:E.
  - apply Qcleb_le in E. assert (Hst : 0 <= s - t).
    { unfold Qcminus. now rewrite <- Qcle_minus_iff. }
    split; rewrite Qcle_minus_iff.
    + replace ((1 - tau) * t + tau * s + - t) with (tau * (s - t)) by ring.
      now apply Qcmult_nonneg.
    + replace (s + - ((1 - tau) * t + tau * s)) with ((1 - tau) * (s - t)) by ring.
      now apply Qcmult_nonneg.
  - apply Qcleb_gt in E. assert (Hts : 0 <= t - s).
    { unfold Qcminus. now rewrite <- Qcle_minus_iff. }
    split; rewrite Qcle_minus_iff.
    + replace ((1 - tau) * t + tau * s + - s) with ((1 - tau) * (t - s)) by ring.
      now apply Qcmult_nonneg.
    + replace (t + - ((1 - tau) * t + tau * s)) with (tau * (t - s)) by ring.
      now apply Qcmult_nonneg.
Qed.

Lemma nth_blend (tau : Num) (dt ds : list Num) (j : nat) :
  (j < List.length dt)%nat -> (j < List.length ds)%nat ->
  nth j (map2 Qcplus (List.map (Qcmult (1 - tau)) dt) (List.map (Qcmult tau) ds)) 0
  = (1 - tau) * nth j dt 0 + tau * nth j ds 0.
Proof.
  revert ds j. induction dt as [| t dt IH]; intros [| s ds] j Ht Hs; simpl in *;
    try lia.
  destruct j as [| j]; [ reflexivity | ]. apply IH; lia.
Qed.

Lemma soft_variables_update_blended (source target : list TFVariable) (tau : Num) :
  0 <= tau -> tau <= 1 ->
  blended source target (common_utils.soft_variables_update source target tau).
Proof.
  intros H0 H1. revert target.
  induction source as [| x source IH]; intros target i v_s v_t j Hs Ht Hjs Hjt.
  - now destruct i.
  - destruct target as [| y target]; [ now destruct i | ].
    destruct i as [| i]; simpl in Hs, Ht.
    + injection Hs as ->. injection Ht as ->. simpl.
      eexists. split; [ reflexivity | ]. simpl.
      rewrite nth_blend by assumption. now apply blend_between.
    + simpl. now apply IH.
Qed.

Lemma unchanged_blended (source target : list TFVariable) :
  blended source target target.
Proof.
  intros i v_s v_t j _ Ht _ _. exists v_t. split; [ exact Ht | ].
  split; [ apply Qcmin_le_l | apply Qcmax_le_l ].
Qed.

(** X14: for [tau] in [[0, 1]], after [_update_targets] every entry of a
    target variable lies between the entry it had and the entry of its
    online counterpart: the targets never leave the range spanned by their
    old values and the online values. *)
Theorem update_targets_blends_within_bounds :
  forall (tau : Num) (period : nat) (w : World),
  0 <= tau -> tau <= 1 ->
  exists w' : World,
    _update_targets tau period w = OK (tt, w')
    /\ blended (critic_net_variables (variables w))
         (target_critic_net_variables (variables w))
         (target_critic_net_variables (variables w'))
    /\ blended (actor_net_variables (variables w))
         (target_actor_net_variables (variables w))
         (target_actor_net_variables (variables w')).
Proof.
  intros tau period w H0 H1.
  destruct (update_targets_returns tau period w) as (w' & Hrun & _ & _ & _ & Hvars).
  exists w'. split; [ exact Hrun | ]. rewrite Hvars.
  destruct (counter w mod period =? 0)%nat; simpl.
  - split; now apply soft_variables_update_blended.
  - split; apply unchanged_blended.
Qed.

Lemma update_targets_blends_example :
  let w := toy.world (toy.agent toy.critic_net (num 9 10) None 1) 0 in
  0 <= num 1 4 /\ num 1 4 <= 1
  /\ exists w' v_t',
       _update_targets (num 1 4) 1 w = OK (tt, w')
       /\ nth_error (target_critic_net_variables (variables w')) 0 = Some v_t'
       /\ num 2 1 <= nth 0 (data (value v_t')) 0 /\ nth 0 (data (value v_t')) 0 <= num 7 1.
Proof.
  intros w.
  assert (H0 : 0 <= num 1 4) by discriminate.
  assert (H1 : num 1 4 <= 1) by discriminate.
  split; [ exact H0 | ]. split; [ exact H1 | ].
  destruct (update_targets_blends_within_bounds (num 1 4) 1 w H0 H1)
    as (w' & Hrun & Hcritic & _).
  destruct (Hcritic 0%nat (toy.var (num 2 1)) (toy.var (num 7 1)) 0%nat)
    as (v_t' & Hnth & Hlo & Hhi); try reflexivity; try (simpl; lia).
  exists w', v_t'. repeat split; assumption.
Defined.

Lemma soft_variables_update_hard_twice (source target : list TFVariable) :
  Forall2 same_shape source target ->
  common_utils.soft_variables_update source
    (common_utils.soft_variables_update source target 1) 1
  = common_utils.soft_variables_update source target 1.
Proof.
  induction 1 as [| v_s v_t source target [Hshape Hlen] _ IH]; simpl;
    [ reflexivity | ].
  rewrite IH. f_equal.
  unfold assign, tf.add, tf.scale, tf.zip_with, tf.map. simpl.
  rewrite (blend_hard (data (value v_s)) (data (value v_t))) by assumption.
  now rewrite blend_hard.
Qed.

(** X15: [initialize] is idempotent: on compatible networks, a second
    [initialize] changes no variable. *)
Theorem initialize_twice :
  forall w w1 : World,
  compatible (variables w) ->
  _initialize w = OK (tt, w1) ->
  exists w2 : World,
    _initialize w1 = OK (tt, w2) /\ variables w2 = variables w1.
Proof.
  intros w w1 [Hcritic Hactor] Hrun1. unfold _initialize in *.
  destruct (update_targets_returns 1 1 w) as (w1' & Hrun1' & _ & _ & _ & Hvars1).
  rewrite Hrun1 in Hrun1'. injection Hrun1' as <-.
  destruct (update_targets_returns 1 1 w1) as (w2 & Hrun2 & _ & _ & _ & Hvars2).
  exists w2. split; [ exact Hrun2 | ].
  rewrite Nat.mod_1_r in Hvars1, Hvars2. simpl in Hvars1, Hvars2.
  rewrite Hvars2, Hvars1. simpl.
  now rewrite !soft_variables_update_hard_twice.
Qed.

Lemma initialize_twice_example :
  let w := toy.world (toy.agent toy.critic_net (num 9 10) None 1) 0 in
  compatible (variables w)
  /\ exists w1 w2,
       _initialize w = OK (tt, w1)
       /\ _initialize w1 = OK (tt, w2)
       /\ variables w2 = variables w1.
Proof.
  intros w.
  assert (Hc : compatible (variables w)).
  { split; repeat constructor. }
  split; [ exact Hc | ].
  destruct (update_targets_returns 1 1 w) as (w1 & Hrun1 & _).
  destruct (initialize_twice w w1 Hc Hrun1) as (w2 & Hrun2 & Hsame).
  now exists w1, w2.
Defined.

(** ** The bound that the clipping puts on the actor loss *)

Lemma of_nat_S (n : nat) : of_nat (S n) = of_nat n + 1.
Proof.
  unfold of_nat, Qcplus. apply Q2Qc_eq_iff. cbn [this Q2Qc].
  rewrite !Qred_correct, Nat2Z.inj_succ, <- Z.add_1_r, inject_Z_plus.
  reflexivity.
Qed.

Lemma of_nat_S_pos (n : nat) : of_nat (S n) <> 0.
Proof.
  intros H. assert (Hn := of_nat_nonneg n). rewrite of_nat_S in H.
  assert (Hle : 1 <= 0).
  { rewrite <- H. rewrite Qcle_minus_iff.
    replace (of_nat n + 1 + - (1)) with (of_nat n) by ring. exact Hn. }
  now apply Hle.
Qed.

Lemma reduce_sum_le (xs : list Num) (bound : Num) :
  Forall (fun x => x <= bound) xs ->
  tf.reduce_sum xs <= of_nat (List.length xs) * bound.
Proof.
  induction 1 as [| x xs Hx _ IH]; simpl List.length; simpl tf.reduce_sum.
  - replace (of_nat 0) with 0 by (apply Qc_is_canon; reflexivity).
    replace (0 * bound) with 0 by ring. apply Qcle_refl.
  - rewrite of_nat_S.
    replace ((of_nat (List.length xs) + 1) * bound)
      with (bound + of_nat (List.length xs) * bound) by ring.
    now apply Qcplus_le_compat.
Qed.

Lemma reduce_sum_map_le {A} (f : A -> Num) (l : list A) (bound : Num) :
  (forall x, In x l -> f x <= bound) ->
  tf.reduce_sum (List.map f l) <= of_nat (List.length l) * bound.
Proof.
  intros Hf. rewrite <- (length_map f l). apply reduce_sum_le, Forall_forall.
  intros y Hy. apply in_map_iff in Hy as (x & <- & Hx). now apply Hf.
Qed.

Lemma reduce_mean_le (xs : list Num) (bound : Num) :
  0 <= bound ->
  Forall (fun x => x <= bound) xs ->
  tf.reduce_mean xs <= bound.
Proof.
  intros Hb Hxs. unfold tf.reduce_mean, Qcdiv.
  destruct xs as [| x xs].
  - simpl. replace (0 * / of_nat 0) with 0 by ring. exact Hb.
  - set (n := of_nat (List.length (x :: xs))).
    assert (Hn : n <> 0) by apply of_nat_S_pos.
    apply Qcle_trans with (n * bound * / n).
    + apply Qcmult_le_compat_r.
      * now apply reduce_sum_le.
      * apply Qcinv_nonneg, of_nat_nonneg.
    + replace (n * bound * / n) with bound by (field; exact Hn).
      apply Qcle_refl.
Qed.

Lemma clipped_square_le (x c : Num) :
  let y := Qcmax (Qcmin x c) (- c) in y * y <= c * c.
Proof.
  cbv zeta. unfold Qcmax. destruct (Qcleb (Qcmin x c) (- c)) eqn:E.
  - replace (- c * - c) with (c * c) by ring. apply Qcle_refl.
  - apply Qcleb_gt in E. assert (Hm := Qcmin_le_r x c).
    set (m := Qcmin x c) in *.
    rewrite Qcle_minus_iff.
    replace (c * c + - (m * m)) with ((c + - m) * (m + - - c)) by ring.
    apply Qcmult_nonneg; now rewrite <- Qcle_minus_iff.
Qed.

Lemma squared_difference_shifted_le (bound : Num) (dd ad : list Num) :
  Forall (fun d => d * d <= bound) dd ->
  Forall (fun x => x <= bound)
    (map2 tf.squared_difference (map2 Qcplus dd ad) ad).
Proof.
  intros Hdd. revert ad.
  induction Hdd as [| d dd Hd _ IH]; intros [| a ad]; simpl; constructor;
    [ | apply IH ].
  unfold tf.squared_difference.
  replace ((a - (d + a)) * (a - (d + a))) with (d * d) by ring. exact Hd.
Qed.

(** X16: with a bound [dqda_clipping = c] the clipped action gradient has
    no entry beyond [c] in magnitude, so each component of the action adds
    at most [c * c] to the actor loss: in every run the actor loss is at
    most the number of components times [c * c], whatever the critic is. *)
Theorem actor_loss_bounded_by_clipping :
  forall (tf_gradients : (list Tensor -> Num) -> list Tensor -> list Tensor)
         (w : World) (time_steps : TimeStep) (c : Num),
  _actor_net (self w) time_steps (_action_spec (self w)) <> [] ->
  _dqda_clipping (self w) = Some c ->
  exists (act : Graph Num) (w' : World),
    actor_loss tf_gradients time_steps w = OK (act, w')
    /\ forall s0 : Variables,
         eval act s0
         <= of_nat (List.length
                      (_actor_net (self w) time_steps (_action_spec (self w))))
            * (c * c).
Proof.
  intros tf_gradients w ts c Hne Hclip.
  destruct (actor_loss_returns tf_gradients w ts Hne) as (act & w' & Hrun & _ & Hspec).
  exists act, w'. split; [ exact Hrun | ].
  intros s0. unfold eval. rewrite Hspec. unfold actor_loss_spec. cbv zeta.
  eapply Qcle_trans; [ apply reduce_sum_map_le | ].
  2: { rewrite length_seq. unfold actions_at. rewrite length_map.
       apply Qcle_refl. }
  intros i _.
  unfold tf.mean_squared_error, tf.add, tf.zip_with. simpl.
  apply reduce_mean_le; [ apply Qcsquare_nonneg | ].
  apply squared_difference_shifted_le.
  unfold clip_dqda. rewrite Hclip. unfold tf.clip_by_value, tf.map. simpl.
  apply Forall_forall. intros y Hy. apply in_map_iff in Hy as (d & <- & _).
  replace (num (-1) 1) with (- (1)) by (apply Qc_is_canon; reflexivity).
  replace (- (1) * c) with (- c) by ring.
  apply clipped_square_le.
Qed.

Lemma actor_loss_bounded_example :
  let w := toy.world (toy.agent toy.critic_net (num 9 10) (Some (num 1 2)) 1) 0 in
  _actor_net (self w) toy.time_steps (_action_spec (self w)) <> []
  /\ _dqda_clipping (self w) = Some (num 1 2)
  /\ exists act w',
       actor_loss toy.central_differences toy.time_steps w = OK (act, w')
       /\ eval act toy.vars <= num 1 4.
Proof.
  intros w.
  assert (Hne : _actor_net (self w) toy.time_steps (_action_spec (self w)) <> [])
    by discriminate.
  split; [ exact Hne | ]. split; [ reflexivity | ].
  destruct (actor_loss_bounded_by_clipping toy.central_differences w
              toy.time_steps (num 1 2) Hne eq_refl) as (act & w' & Hrun & Hbound).
  exists act, w'. split; [ exact Hrun | ].
  eapply Qcle_trans; [ apply Hbound | ]. discriminate.
Defined.

(** ** The critic loss at a fixed point *)

Lemma huber_zero (x : Num) : tf.huber 1 x x = 0.
Proof.
  unfold tf.huber. replace (x - x) with 0 by ring.
  apply Qc_is_canon. reflexivity.
Qed.

Lemma huber_loss_zero (labels predictions : Tensor) :
  data predictions = data labels -> tf.huber_loss labels predictions = 0.
Proof.
  intros Heq. unfold tf.huber_loss. rewrite Heq.
  apply reduce_mean_zeros.
  generalize (data labels) as xs.
  induction xs as [| x xs IH]; simpl; constructor;
    [ apply huber_zero | exact IH ].
Qed.

(** X17: with the default Huber loss, the critic loss is 0 wherever the
    Q-values of the online critic are the TD targets: a critic that
    satisfies the one-step Bellman equation on the batch has no loss. *)
Theorem critic_loss_zero_at_td_targets :
  forall (w : World) (time_steps : TimeStep) (actions : list Tensor)
         (next_time_steps : TimeStep),
  _td_errors_loss_fn (self w) = tf.huber_loss ->
  exists (crit : Graph Num) (w' : World),
    critic_loss time_steps actions next_time_steps w = OK (crit, w')
    /\ forall s0 v,
         data (q_values_at (self w) CRITIC_NET_SCOPE time_steps actions v)
         = td_target_spec (_reward_scale_factor (self w)) (_gamma (self w))
             (data (reward next_time_steps)) (data (discount next_time_steps))
             (data (q_values_at (self w) TARGET_CRITIC_NET_SCOPE next_time_steps
                      (actions_at (self w) TARGET_ACTOR_NET_SCOPE next_time_steps s0)
                      s0)) ->
         crit s0 v = 0.
Proof.
  intros w ts actions nts Hhuber.
  destruct (critic_loss_returns w ts actions nts) as (crit & w' & Hrun & _ & Hspec).
  exists crit, w'. split; [ exact Hrun | ].
  intros s0 v Heq. rewrite Hspec. unfold critic_loss_spec. rewrite Hhuber.
  now apply huber_loss_zero.
Qed.

Lemma critic_loss_zero_example :
  let w := toy.world (toy.agent (toy.constant_critic (num 5 1)) (num 4 5) None 1) 0 in
  _td_errors_loss_fn (self w) = tf.huber_loss
  /\ exists crit w',
       critic_loss toy.time_steps [mkTensor [1%nat] [num 4 1]] toy.next_time_steps w
       = OK (crit, w')
       /\ eval crit toy.vars = 0.
Proof.
  intros w. split; [ reflexivity | ].
  destruct (critic_loss_zero_at_td_targets w toy.time_steps
              [mkTensor [1%nat] [num 4 1]] toy.next_time_steps eq_refl)
    as (crit & w' & Hrun & Hzero).
  exists crit, w'. split; [ exact Hrun | ].
  apply Hzero. simpl. f_equal; apply Qc_is_canon; reflexivity.
Defined.
